(** * Social feed (script.js): the data layer and its mutation rules

    A shallow embedding of the feed state kept by [script.js] in
    [localStorage] (posts, likes, comments) and in its three globals, with
    the handlers that change it: [createPost], [sharePost], [toggleLike],
    [addComment], [saveEditComment], [deleteComment], and the statistics of
    the two profile panels. *)

From stdpp Require Import base list gmap strings.
From Stdlib Require Import ZArith Lia.

Local Open Scope Z_scope.

(** ** JavaScript values the handlers rely on *)

Module JS.

(** A JavaScript string is a sequence of UTF-16 code units. *)
Abbreviation jsstring := (list N).

(** Embeds an ASCII literal, for examples. *)
Definition str (s : string) : jsstring :=
  List.map (fun a => N.of_nat (Ascii.nat_of_ascii a)) (String.list_ascii_of_string s).

(** What a call evaluates to: none of the handlers has a [return e]
    statement, so a call that returns evaluates to [undefined]. *)
Inductive value :=
| VUndefined
| VBool (b : bool).

(** [WhiteSpace] and [LineTerminator] code units of ECMAScript, the ones
    removed by [String.prototype.trim]. *)
Definition isWhiteSpace (c : N) : bool :=
  (existsb (N.eqb c)
     [9; 10; 11; 12; 13; 32; 160; 5760; 8232; 8233; 8239; 8287; 12288; 65279]
   || ((8192 <=? c) && (c <=? 8202)))%N.

Fixpoint trimStart (s : jsstring) : jsstring :=
  match s with
  | c :: s' => if isWhiteSpace c then trimStart s' else s
  | [] => []
  end.

Definition trimEnd (s : jsstring) : jsstring := rev (trimStart (rev s)).

Definition trim (s : jsstring) : jsstring := trimEnd (trimStart s).

(** Truthiness of a string ([!s] is its negation): only the empty string is falsy. *)
Definition truthy (s : jsstring) : bool :=
  match s with [] => false | _ :: _ => true end.

(** Truthiness of a value that is [null] or a string. *)
Definition truthy_opt (o : option jsstring) : bool :=
  match o with None => false | Some s => truthy s end.

(** [s.startsWith(p)] *)
Fixpoint startsWith (p s : jsstring) : bool :=
  match p, s with
  | [], _ => true
  | a :: p', b :: s' => N.eqb a b && startsWith p' s'
  | _ :: _, [] => false
  end.

Section Arrays.
Context {A : Type}.

(** [arr.findIndex(f)]: index of the first element satisfying [f], or -1. *)
Fixpoint findIndex (f : A -> bool) (arr : list A) : Z :=
  match arr with
  | [] => -1
  | x :: arr' =>
      if f x then 0
      else let i := findIndex f arr' in
           if bool_decide (i = -1) then -1 else i + 1
  end.

(** [arr.find(f)]: the first element satisfying [f], or [undefined]. *)
Fixpoint find (f : A -> bool) (arr : list A) : option A :=
  match arr with
  | [] => None
  | x :: arr' => if f x then Some x else find f arr'
  end.

(** [arr.some(f)] *)
Definition some (f : A -> bool) (arr : list A) : bool := existsb f arr.

(** [arr.splice(i, 1)] for an index [0 <= i]: the array without its
    element at [i]. *)
Definition splice1 (i : Z) (arr : list A) : list A :=
  take (Z.to_nat i) arr ++ drop (S (Z.to_nat i)) arr.

(** [arr.push(x)] *)
Definition push (x : A) (arr : list A) : list A := arr ++ [x].

(** [arr.unshift(x)] *)
Definition unshift (x : A) (arr : list A) : list A := x :: arr.

(** Writing a field of the object returned by [arr.find(f)]: the object
    is shared with the array, so the array sees the first element
    satisfying [f] replaced by its update. *)
Fixpoint update_found (f : A -> bool) (upd : A -> A) (arr : list A) : list A :=
  match arr with
  | [] => []
  | x :: arr' => if f x then upd x :: arr' else x :: update_found f upd arr'
  end.
End Arrays.

(** [arr.indexOf(x)] on an array of numbers. *)
Definition indexOf (x : Z) (arr : list Z) : Z :=
  findIndex (fun y => bool_decide (y = x)) arr.

End JS.

Import JS.

(** ** Records *)

Module User.
Record t := mk {
  id : Z;
  name : string;
  bio : string;
  profilePic : string }.
End User.

Module Post.
Record t := mk {
  id : Z;
  userId : Z;
  content : jsstring;
  image : option jsstring;         (* [null] or a data URL *)
  timestamp : Z;                   (* the instant whose ISO text is stored *)
  isShared : bool;
  originalPostId : option Z;       (* [null] on a post made by [createPost] *)
  originalUserId : option Z        (* absent on a post made by [createPost] *) }.
End Post.

Module Comment.
Record t := mk {
  id : Z;
  userId : Z;
  text : jsstring;
  timestamp : Z }.

(** [comment.text = newText] *)
Definition set_text (newText : jsstring) (c : t) : t :=
  mk (id c) (userId c) newText (timestamp c).
End Comment.

(** The seeded directory. *)
Definition users : list User.t :=
  [ User.mk 1 "Nitesh Sawardekar" "Tech enthusiast | Web Developer | Coffee lover ☕"
      "https://i.pravatar.cc/150?img=12";
    User.mk 2 "seema Singh" "Designer | Traveler | Photography 📸"
      "https://i.pravatar.cc/150?img=45";
    User.mk 3 "Dead Coder" "Entrepreneur | Fitness enthusiast | Motivational speaker 💪"
      "https://i.pravatar.cc/150?img=33" ].

Definition getUserById (userId : Z) : option User.t :=
  find (fun user => bool_decide (User.id user = userId)) users.

(** ** State

    The three [localStorage] items, read through [getPosts], [getLikes]
    and [getComments] (a missing item reads as the empty array or object),
    and the three globals. Object keys are property names: [likes] is
    indexed by post ids, [comments] by [currentPostId], which is a post id
    or [null] (the property named null), here [None]. *)
Record World := mkWorld {
  posts : list Post.t;
  likes : gmap Z (list Z);
  comments : gmap (option Z) (list Comment.t);
  currentUserId : Z;
  currentPostId : option Z;
  uploadedImage : option jsstring }.

Definition getPosts (w : World) : list Post.t := posts w.
Definition getLikes (w : World) : gmap Z (list Z) := likes w.
Definition getComments (w : World) : gmap (option Z) (list Comment.t) := comments w.

Definition savePosts (ps : list Post.t) (w : World) : World :=
  mkWorld ps (likes w) (comments w) (currentUserId w) (currentPostId w) (uploadedImage w).

Definition saveLikes (ls : gmap Z (list Z)) (w : World) : World :=
  mkWorld (posts w) ls (comments w) (currentUserId w) (currentPostId w) (uploadedImage w).

Definition saveComments (cs : gmap (option Z) (list Comment.t)) (w : World) : World :=
  mkWorld (posts w) (likes w) cs (currentUserId w) (currentPostId w) (uploadedImage w).

Definition set_currentUserId (u : Z) (w : World) : World :=
  mkWorld (posts w) (likes w) (comments w) u (currentPostId w) (uploadedImage w).

Definition set_currentPostId (p : option Z) (w : World) : World :=
  mkWorld (posts w) (likes w) (comments w) (currentUserId w) p (uploadedImage w).

Definition set_uploadedImage (i : option jsstring) (w : World) : World :=
  mkWorld (posts w) (likes w) (comments w) (currentUserId w) (currentPostId w) i.

(** Empty storage, first user selected. *)
Definition initial : World := mkWorld [] ∅ ∅ 1 None None.

(** ** How a handler ends *)

(** The messages passed to [alert] before an early [return]. *)
Inductive Alert :=
| AlertEmptyPost        (* 'Please write something or upload an image!' *)
| AlertNotImage         (* 'Please upload an image file!' *)
| AlertEmptyComment     (* 'Please write a comment!' *)
| AlertEmptyEdit        (* 'Comment cannot be empty!' *)
| AlertPostNotFound     (* 'Post not found!' *)
| AlertOwnPost          (* 'You cannot share your own post!' *)
| AlertAlreadyShared.   (* 'You have already shared this post!' *)

Definition alert_text (a : Alert) : string :=
  match a with
  | AlertEmptyPost => "Please write something or upload an image!"
  | AlertNotImage => "Please upload an image file!"
  | AlertEmptyComment => "Please write a comment!"
  | AlertEmptyEdit => "Comment cannot be empty!"
  | AlertPostNotFound => "Post not found!"
  | AlertOwnPost => "You cannot share your own post!"
  | AlertAlreadyShared => "You have already shared this post!"
  end.

Inductive Completion :=
| Done                  (* ran to the end of its body *)
| Alerted (a : Alert)   (* [alert(a); return;] *)
| Cancelled             (* [confirm(...)] answered no, [return;] *)
| TypeError.            (* a property of [undefined] was read or written *)

(** The value of the call expression, when the call returns. *)
Definition returned (c : Completion) : option value :=
  match c with
  | TypeError => None
  | Done | Alerted _ | Cancelled => Some VUndefined
  end.

(** The error kinds of the specification, as the handlers surface them. *)
Inductive ErrorKind := ValidationError | NotFound | InvalidOperation | AlreadyShared.

Definition error_kind (a : Alert) : ErrorKind :=
  match a with
  | AlertEmptyPost | AlertNotImage | AlertEmptyComment | AlertEmptyEdit => ValidationError
  | AlertPostNotFound => NotFound
  | AlertOwnPost => InvalidOperation
  | AlertAlreadyShared => AlreadyShared
  end.

Definition fails_with (c : Completion) (k : ErrorKind) : Prop :=
  exists a, c = Alerted a /\ error_kind a = k.

(** ** Handlers

    Each handler maps the world to how it ended and the world it leaves.
    What a handler reads from the page or the environment is a parameter:
    [now] is the value of [Date.now()], [stamp] the instant of
    [new Date()] whose ISO text is stored, [raw] the value of the text
    field, [confirmed] the answer to [confirm]. A handler below is the body
    of the function up to the calls of [renderFeed], [renderComments] and
    [updateCurrentUserProfile] that close it: [Done] says the body reached
    them, and the world is the one they find. These calls read the storage
    and write the page only; they are added by [handle_and_render]
    below. *)

Definition createPost (now stamp : Z) (raw : jsstring) (w : World) : Completion * World :=
  let content := trim raw in
  if negb (truthy content) && negb (truthy_opt (uploadedImage w)) then
    (Alerted AlertEmptyPost, w)
  else
    let posts := getPosts w in
    let newPost :=
      {| Post.id := now;
         Post.userId := currentUserId w;
         Post.content := content;
         Post.image := uploadedImage w;
         Post.timestamp := stamp;
         Post.isShared := false;
         Post.originalPostId := None;
         Post.originalUserId := None |} in
    let posts := unshift newPost posts in
    (Done, set_uploadedImage None (savePosts posts w)).

Record File := mkFile {
  file_type : jsstring;     (* [file.type] *)
  file_dataURL : jsstring   (* what [readAsDataURL] yields *) }.

(** The call returns once the read is started; the image is staged later,
    by [reader_onload]. *)
Definition handleImageUpload (file : option File) (w : World) : Completion * World :=
  match file with
  | Some file =>
      if negb (startsWith (str "image/") (file_type file)) then
        (Alerted AlertNotImage, w)
      else (Done, w)
  | None => (Done, w)
  end.

(** The [onload] callback of the reader started for [file]:
    [e.target.result] is the data URL of the file. *)
Definition reader_onload (file : File) (w : World) : Completion * World :=
  (Done, set_uploadedImage (Some (file_dataURL file)) w).

Definition removeImage (w : World) : Completion * World :=
  (Done, set_uploadedImage None w).

Definition toggleLike (postId : Z) (w : World) : Completion * World :=
  let likes := getLikes w in
  let likes :=
    match likes !! postId with
    | None => <[postId := []]> likes
    | Some _ => likes
    end in
  let arr := default [] (likes !! postId) in
  let userIndex := indexOf (currentUserId w) arr in
  let arr :=
    if bool_decide (userIndex = -1) then push (currentUserId w) arr
    else splice1 userIndex arr in
  (Done, saveLikes (<[postId := arr]> likes) w).

Definition openCommentModal (postId : Z) (w : World) : Completion * World :=
  (Done, set_currentPostId (Some postId) w).

Definition closeCommentModal (w : World) : Completion * World :=
  (Done, set_currentPostId None w).

Definition addComment (now stamp : Z) (raw : jsstring) (w : World) : Completion * World :=
  let commentText := trim raw in
  if negb (truthy commentText) then (Alerted AlertEmptyComment, w)
  else
    let comments := getComments w in
    let comments :=
      match comments !! currentPostId w with
      | None => <[currentPostId w := []]> comments
      | Some _ => comments
      end in
    let newComment :=
      {| Comment.id := now;
         Comment.userId := currentUserId w;
         Comment.text := commentText;
         Comment.timestamp := stamp |} in
    let arr := push newComment (default [] (comments !! currentPostId w)) in
    (Done, saveComments (<[currentPostId w := arr]> comments) w).

Definition saveEditComment (commentId : Z) (raw : jsstring) (w : World) : Completion * World :=
  let newText := trim raw in
  if negb (truthy newText) then (Alerted AlertEmptyEdit, w)
  else
    let comments := getComments w in
    match comments !! currentPostId w with
    | None => (TypeError, w)                  (* [undefined.find] *)
    | Some postComments =>
        let is_it := fun c => bool_decide (Comment.id c = commentId) in
        match find is_it postComments with
        | None => (TypeError, w)              (* [undefined.text = ...] *)
        | Some _ =>
            let postComments := update_found is_it (Comment.set_text newText) postComments in
            (Done, saveComments (<[currentPostId w := postComments]> comments) w)
        end
    end.

Definition deleteComment (confirmed : bool) (commentId : Z) (w : World) : Completion * World :=
  if negb confirmed then (Cancelled, w)
  else
    let comments := getComments w in
    match comments !! currentPostId w with
    | None => (TypeError, w)                  (* [undefined.findIndex] *)
    | Some postComments =>
        let index := findIndex (fun c => bool_decide (Comment.id c = commentId)) postComments in
        if negb (bool_decide (index = -1)) then
          let postComments := splice1 index postComments in
          (Done, saveComments (<[currentPostId w := postComments]> comments) w)
        else (Done, w)
    end.

(** Ends with [alert('Post shared successfully!')], after the write. *)
Definition sharePost (now stamp : Z) (originalPostId : Z) (w : World) : Completion * World :=
  let posts := getPosts w in
  match find (fun p => bool_decide (Post.id p = originalPostId)) posts with
  | None => (Alerted AlertPostNotFound, w)
  | Some originalPost =>
      if bool_decide (Post.userId originalPost = currentUserId w) then
        (Alerted AlertOwnPost, w)
      else
        let alreadyShared :=
          some (fun p => bool_decide (Post.userId p = currentUserId w)
                         && Post.isShared p
                         && bool_decide (Post.originalPostId p = Some originalPostId))
               posts in
        if alreadyShared then (Alerted AlertAlreadyShared, w)
        else
          let sharedPost :=
            {| Post.id := now;
               Post.userId := currentUserId w;
               Post.content := Post.content originalPost;
               Post.image := Post.image originalPost;
               Post.timestamp := stamp;
               Post.isShared := true;
               Post.originalPostId := Some originalPostId;
               Post.originalUserId := Some (Post.userId originalPost) |} in
          (Done, savePosts (unshift sharedPost posts) w)
  end.

(** The [change] listener of the user selector: [parseInt(e.target.value)]
    is the id of the chosen option. *)
Definition selectUser (u : Z) (w : World) : Completion * World :=
  (Done, set_currentUserId u w).

(** ** What the post cards and the profile panels show *)

(** Truthiness of [obj[key]] for an object of arrays: the array when the
    property exists (an array is truthy, also when empty), else
    [undefined]. *)
Definition defined {A} (o : option (list A)) : bool :=
  match o with Some _ => true | None => false end.

(** [obj[key].length], read after the test above. *)
Definition len {A} (o : option (list A)) : nat := length (default [] o).

(** [createPostCard]: [isLiked], [likeCount] and [commentCount]. *)
Definition isLiked (post : Post.t) (w : World) : bool :=
  let likes := getLikes w in
  defined (likes !! Post.id post)
  && bool_decide (currentUserId w ∈ default [] (likes !! Post.id post)).

Definition likeCount (post : Post.t) (w : World) : nat :=
  let likes := getLikes w in
  if defined (likes !! Post.id post) then len (likes !! Post.id post) else 0%nat.

Definition commentCount (post : Post.t) (w : World) : nat :=
  let comments := getComments w in
  if defined (comments !! Some (Post.id post)) then len (comments !! Some (Post.id post))
  else 0%nat.

Record Stats := mkStats {
  userPosts : nat;
  userLikes : nat;
  userComments : nat }.

(** The statistics block of [updateCurrentUserProfile]: a [filter] and two
    [forEach] loops over all posts. *)
Definition currentUserStats (w : World) : Stats :=
  let posts := getPosts w in
  let likes := getLikes w in
  let comments := getComments w in
  let userPosts :=
    length (List.filter (fun post => bool_decide (Post.userId post = currentUserId w)) posts) in
  let userLikes :=
    fold_left (fun userLikes post =>
      if bool_decide (Post.userId post = currentUserId w) && defined (likes !! Post.id post)
      then (userLikes + len (likes !! Post.id post))%nat else userLikes) posts 0%nat in
  let userComments :=
    fold_left (fun userComments post =>
      if bool_decide (Post.userId post = currentUserId w)
         && defined (comments !! Some (Post.id post))
      then (userComments + len (comments !! Some (Post.id post)))%nat else userComments)
      posts 0%nat in
  mkStats userPosts userLikes userComments.

(** [None] is the [TypeError] of reading [currentUser.profilePic] when no
    user has the id. *)
Definition updateCurrentUserProfile (w : World) : option Stats :=
  match getUserById (currentUserId w) with
  | None => None
  | Some currentUser => Some (currentUserStats w)
  end.

(** The statistics block of [showUserProfile]: one [forEach] over the
    user's posts, with both totals. *)
Definition userStats (userId : Z) (w : World) : Stats :=
  let posts := getPosts w in
  let likes := getLikes w in
  let comments := getComments w in
  let userPosts := List.filter (fun post => bool_decide (Post.userId post = userId)) posts in
  let totals :=
    fold_left (fun '(totalLikes, totalComments) post =>
      let totalLikes :=
        if defined (likes !! Post.id post)
        then (totalLikes + len (likes !! Post.id post))%nat else totalLikes in
      let totalComments :=
        if defined (comments !! Some (Post.id post))
        then (totalComments + len (comments !! Some (Post.id post)))%nat else totalComments in
      (totalLikes, totalComments)) userPosts (0%nat, 0%nat) in
  mkStats (length userPosts) (fst totals) (snd totals).

Definition showUserProfile (userId : Z) (w : World) : option Stats :=
  match getUserById userId with
  | None => None
  | Some user => Some (userStats userId w)
  end.

(** The aggregation as the specification words it. *)
Module Reference.
Definition listByUser (userId : Z) (w : World) : list Post.t :=
  List.filter (fun post => bool_decide (Post.userId post = userId)) (posts w).

Definition countFor (postId : Z) (w : World) : nat :=
  length (default [] (likes w !! postId)).

Definition listFor (postId : Z) (w : World) : list Comment.t :=
  default [] (comments w !! Some postId).

Definition postCount (userId : Z) (w : World) : nat :=
  length (listByUser userId w).

Definition likeCount (userId : Z) (w : World) : nat :=
  sum_list (List.map (fun post => countFor (Post.id post) w) (listByUser userId w)).

Definition commentCount (userId : Z) (w : World) : nat :=
  sum_list (List.map (fun post => length (listFor (Post.id post) w)) (listByUser userId w)).

Definition stats (userId : Z) (w : World) : Stats :=
  mkStats (postCount userId w) (likeCount userId w) (commentCount userId w).
End Reference.

(** ** Runs *)

Inductive Action :=
| CreatePost (now stamp : Z) (raw : jsstring)
| HandleImageUpload (file : option File)
| RemoveImage
| ToggleLike (postId : Z)
| OpenCommentModal (postId : Z)
| CloseCommentModal
| AddComment (now stamp : Z) (raw : jsstring)
| SaveEditComment (commentId : Z) (raw : jsstring)
| DeleteComment (confirmed : bool) (commentId : Z)
| SharePost (now stamp : Z) (originalPostId : Z)
| SelectUser (u : Z)
| ReaderOnload (file : File).

Definition handle (a : Action) : World -> Completion * World :=
  match a with
  | CreatePost now stamp raw => createPost now stamp raw
  | HandleImageUpload file => handleImageUpload file
  | RemoveImage => removeImage
  | ToggleLike postId => toggleLike postId
  | OpenCommentModal postId => openCommentModal postId
  | CloseCommentModal => closeCommentModal
  | AddComment now stamp raw => addComment now stamp raw
  | SaveEditComment commentId raw => saveEditComment commentId raw
  | DeleteComment confirmed commentId => deleteComment confirmed commentId
  | SharePost now stamp originalPostId => sharePost now stamp originalPostId
  | SelectUser u => selectUser u
  | ReaderOnload file => reader_onload file
  end.

Definition run (actions : list Action) (w : World) : World :=
  fold_left (fun w a => snd (handle a w)) actions w.

(** The worlds the handlers can produce from empty storage, whatever ids
    and texts they are called with: the page only offers the ids it shows,
    so these include every world a session can be in. *)
Inductive reachable : World -> Prop :=
| reachable_initial : reachable initial
| reachable_handle a w : reachable w -> reachable (snd (handle a w)).

(** ** Data-model predicates *)

Definition post_ids (w : World) : list Z := List.map Post.id (posts w).

(** All comments of the system, post by post. *)
Definition all_comments (w : World) : list Comment.t :=
  concat (List.map snd (map_to_list (comments w))).

Definition comment_ids (w : World) : list Z := List.map Comment.id (all_comments w).

Definition likes_nodup (w : World) : Prop :=
  forall postId arr, likes w !! postId = Some arr -> NoDup arr.

(** The shares of [originalPostId] made by [userId]. *)
Definition shares_of (userId originalPostId : Z) (w : World) : list Post.t :=
  List.filter (fun p => bool_decide (Post.userId p = userId)
                        && Post.isShared p
                        && bool_decide (Post.originalPostId p = Some originalPostId))
              (posts w).

(** The test of the [some] call of [sharePost], as a proposition. *)
Definition is_share_of (userId originalPostId : Z) (p : Post.t) : Prop :=
  Post.userId p = userId /\ Post.isShared p = true
  /\ Post.originalPostId p = Some originalPostId.

(** The post [sharePost] builds from the post it found. *)
Definition sharedPost (now stamp originalPostId : Z) (w : World) (originalPost : Post.t)
  : Post.t :=
  {| Post.id := now;
     Post.userId := currentUserId w;
     Post.content := Post.content originalPost;
     Post.image := Post.image originalPost;
     Post.timestamp := stamp;
     Post.isShared := true;
     Post.originalPostId := Some originalPostId;
     Post.originalUserId := Some (Post.userId originalPost) |}.

(** What [toggleLike] does to the array of the post, for user [u]. *)
Definition toggled (u : Z) (arr : list Z) : list Z :=
  if bool_decide (indexOf u arr = -1) then push u arr else splice1 (indexOf u arr) arr.

(** The comments stored under the post of the open dialog. *)
Definition current_comments (w : World) : list Comment.t :=
  default [] (comments w !! currentPostId w).

(** No comment under that post has the id [commentId]. *)
Definition no_comment_with (commentId : Z) (w : World) : Prop :=
  forall c, c ∈ current_comments w -> Comment.id c <> commentId.

(** ** What the page shows

    The rendering functions, as the values they put on the page; [None] is
    the [TypeError] of reading a property of a user that [getUserById] did
    not find. [now] is the instant of the [new Date()] of
    [formatTimestamp]. *)

(** The text made by [formatTimestamp]. *)
Inductive TimeText :=
| JustNow                                       (* 'Just now' *)
| Ago (n : Z) (unit : string) (plural : bool)   (* n, unit, 's' when plural, ' ago' *)
| OnDate (postDate : Z).                        (* [postDate.toLocaleDateString(...)] *)

Definition formatTimestamp (now timestamp : Z) : TimeText :=
  let postDate := timestamp in
  let diffInSeconds := (now - postDate) / 1000 in
  if bool_decide (diffInSeconds < 60) then JustNow
  else if bool_decide (diffInSeconds < 3600) then
    let minutes := diffInSeconds / 60 in
    Ago minutes "minute" (negb (bool_decide (minutes = 1)))
  else if bool_decide (diffInSeconds < 86400) then
    let hours := diffInSeconds / 3600 in
    Ago hours "hour" (negb (bool_decide (hours = 1)))
  else if bool_decide (diffInSeconds < 604800) then
    let days := diffInSeconds / 86400 in
    Ago days "day" (negb (bool_decide (days = 1)))
  else OnDate postDate.

Record PostCard := mkPostCard {
  card_user : User.t;
  card_time : TimeText;
  card_sharedBadge : bool;
  card_content : jsstring;           (* shown through [escapeHTML] *)
  card_image : option jsstring;
  card_liked : bool;
  card_likeCount : nat;
  card_commentCount : nat;
  card_shareButton : bool }.

Definition createPostCard (now : Z) (post : Post.t) (w : World) : option PostCard :=
  match getUserById (Post.userId post) with
  | None => None
  | Some user =>
      Some {| card_user := user;
              card_time := formatTimestamp now (Post.timestamp post);
              card_sharedBadge := Post.isShared post;
              card_content := Post.content post;
              card_image := if truthy_opt (Post.image post) then Post.image post else None;
              card_liked := isLiked post w;
              card_likeCount := likeCount post w;
              card_commentCount := commentCount post w;
              card_shareButton := negb (Post.isShared post) |}
  end.

Inductive Feed :=
| EmptyFeed                              (* the 'No posts yet' placeholder *)
| FeedCards (cards : list PostCard).

Definition renderFeed (now : Z) (w : World) : option Feed :=
  let posts := getPosts w in
  if bool_decide (length posts = 0%nat) then Some EmptyFeed
  else FeedCards <$> mapM (fun post => createPostCard now post w) posts.

Record CommentItem := mkCommentItem {
  item_user : User.t;
  item_time : TimeText;
  item_text : jsstring;              (* shown through [escapeHTML] *)
  item_actions : bool                (* the Edit and Delete buttons *) }.

Definition createCommentElement (now : Z) (comment : Comment.t) (w : World)
  : option CommentItem :=
  match getUserById (Comment.userId comment) with
  | None => None
  | Some user =>
      let isOwnComment := bool_decide (Comment.userId comment = currentUserId w) in
      Some {| item_user := user;
              item_time := formatTimestamp now (Comment.timestamp comment);
              item_text := Comment.text comment;
              item_actions := isOwnComment |}
  end.

Inductive CommentsView :=
| NoComments                             (* the 'No comments yet' placeholder *)
| CommentItems (items : list CommentItem).

Definition renderComments (now : Z) (w : World) : option CommentsView :=
  let comments := getComments w in
  let postComments := default [] (comments !! currentPostId w) in
  if bool_decide (length postComments = 0%nat) then Some NoComments
  else CommentItems <$> mapM (fun comment => createCommentElement now comment w) postComments.

(** [renderAllUsers]: the users listed in the right sidebar. *)
Definition renderAllUsers (w : World) : list User.t :=
  List.filter (fun user => negb (bool_decide (User.id user = currentUserId w))) users.

(** [startEditComment]: the name and the text put in the edit form, which
    replaces the content of the element of the comment; [drawn] tells
    whether the page has that element, [document.getElementById] giving
    [null] otherwise. *)
Definition startEditComment (drawn : bool) (commentId : Z) (w : World)
  : option (string * jsstring) :=
  let comments := getComments w in
  match comments !! currentPostId w with
  | None => None                              (* [undefined.find] *)
  | Some postComments =>
      match find (fun c => bool_decide (Comment.id c = commentId)) postComments with
      | None => None                          (* [undefined.userId] *)
      | Some comment =>
          if negb drawn then None             (* [null.innerHTML = ...] *)
          else
            match getUserById (Comment.userId comment) with
            | None => None                    (* [undefined.name] *)
            | Some user => Some (User.name user, Comment.text comment)
            end
      end
  end.

(** The classes [warning] and [danger] of the character counter. *)
Record CounterClasses := mkCounterClasses {
  warning : bool;
  danger : bool }.

(** [updateCharCount]: the count shown and the classes left, for a text of
    [currentLength] code units. *)
Definition classList_set_warning (b : bool) (classes : CounterClasses) : CounterClasses :=
  mkCounterClasses b (danger classes).

Definition classList_set_danger (b : bool) (classes : CounterClasses) : CounterClasses :=
  mkCounterClasses (warning classes) b.

(** [updateCharCount]: the count shown and the classes left, for a text of
    [currentLength] code units; [classList.add] sets a class,
    [classList.remove] clears it. *)
Definition updateCharCount (currentLength : nat) (classes : CounterClasses)
  : nat * CounterClasses :=
  let charCount := currentLength in
  if bool_decide (250 < currentLength)%nat then
    (charCount, classList_set_warning false (classList_set_danger true classes))
  else if bool_decide (200 < currentLength)%nat then
    (charCount, classList_set_danger false (classList_set_warning true classes))
  else
    (charCount, classList_set_danger false (classList_set_warning false classes)).

(** The key handlers of the two text fields: Ctrl+Enter submits. *)
Definition postContent_keydown (ctrlKey : bool) (key : string) (now stamp : Z)
  (raw : jsstring) (w : World) : Completion * World :=
  if ctrlKey && bool_decide (key = "Enter") then createPost now stamp raw w
  else (Done, w).

Definition commentInput_keydown (ctrlKey : bool) (key : string) (now stamp : Z)
  (raw : jsstring) (w : World) : Completion * World :=
  if ctrlKey && bool_decide (key = "Enter") then addComment now stamp raw w
  else (Done, w).

(** ** Handlers with their closing calls *)

Inductive Render := RenderFeed | RenderComments | UpdateCurrentUserProfile.

(** The render calls that close a handler whose body ran to its end, in
    the order of the source; [w] is the world the handler started from.
    [deleteComment] makes them only when it found the comment;
    [renderAllUsers], which closes the listener of the user selector, reads
    the directory only. *)
Definition closing_renders (a : Action) (w : World) : list Render :=
  match a with
  | CreatePost _ _ _ | ToggleLike _ | SharePost _ _ _ =>
      [RenderFeed; UpdateCurrentUserProfile]
  | OpenCommentModal _ | SaveEditComment _ _ => [RenderComments]
  | AddComment _ _ _ => [RenderComments; RenderFeed; UpdateCurrentUserProfile]
  | DeleteComment _ commentId =>
      let index :=
        findIndex (fun c => bool_decide (Comment.id c = commentId))
                  (default [] (getComments w !! currentPostId w)) in
      if negb (bool_decide (index = -1))
      then [RenderComments; RenderFeed; UpdateCurrentUserProfile] else []
  | SelectUser _ => [UpdateCurrentUserProfile; RenderFeed]
  | HandleImageUpload _ | RemoveImage | CloseCommentModal | ReaderOnload _ => []
  end.

(** Whether a render call returns, rather than ending in a [TypeError]. *)
Definition render_completes (t : Z) (r : Render) (w : World) : bool :=
  match r with
  | RenderFeed => bool_decide (is_Some (renderFeed t w))
  | RenderComments => bool_decide (is_Some (renderComments t w))
  | UpdateCurrentUserProfile => bool_decide (is_Some (updateCurrentUserProfile w))
  end.

(** The whole handler: its body, then its closing calls on the world the
    body left; a [TypeError] in one of them ends the handler after the
    writes of the body. [t] is the instant of the [new Date()] of
    [formatTimestamp]. *)
Definition handle_and_render (t : Z) (a : Action) (w : World) : Completion * World :=
  let r := handle a w in
  match fst r with
  | Done =>
      if forallb (fun render => render_completes t render (snd r)) (closing_renders a w)
      then r else (TypeError, snd r)
  | _ => r
  end.

(** ** Sessions

    A session runs the handlers from empty storage, the user selector
    offering the users of the directory only. *)
Definition known (userId : Z) : Prop := is_Some (getUserById userId).

Definition permitted (a : Action) : Prop :=
  match a with
  | SelectUser u => known u
  | _ => True
  end.

Inductive in_session : World -> Prop :=
| session_start : in_session initial
| session_handle a w : in_session w -> permitted a -> in_session (snd (handle a w)).

(** Every id met in the storage is the id of a user of the directory. *)
Definition authors_known (w : World) : Prop :=
  known (currentUserId w)
  /\ (forall p, p ∈ posts w -> known (Post.userId p))
  /\ (forall key arr c, comments w !! key = Some arr -> c ∈ arr -> known (Comment.userId c))
  /\ (forall postId arr u, likes w !! postId = Some arr -> u ∈ arr -> known u).

(** A stored post has a text or an image; it names an original, by another
    author, exactly when it is a share. *)
Definition post_ok (p : Post.t) : Prop :=
  (truthy (Post.content p) = true \/ truthy_opt (Post.image p) = true)
  /\ (Post.isShared p = false ->
        Post.originalPostId p = None /\ Post.originalUserId p = None)
  /\ (Post.isShared p = true ->
        (exists o, Post.originalPostId p = Some o)
        /\ (exists u, Post.originalUserId p = Some u /\ u <> Post.userId p)).

(** A stored comment has a text that is not empty and has no white space
    at its ends. *)
Definition comment_ok (c : Comment.t) : Prop :=
  Comment.text c <> [] /\ trim (Comment.text c) = Comment.text c.

Definition comments_ok (w : World) : Prop :=
  forall key arr c, comments w !! key = Some arr -> c ∈ arr -> comment_ok c.

(** ** Array lemmas *)

Section ArrayLemmas.
Context {A : Type}.
Implicit Types (f : A -> bool) (arr : list A).

Lemma findIndex_ge f arr : -1 <= findIndex f arr.
Proof.
  induction arr as [|x arr IH]; simpl; [lia|].
  destruct (f x); [lia|]. case_bool_decide; lia.
Qed.

Lemma findIndex_find_None f arr : findIndex f arr = -1 <-> find f arr = None.
Proof.
  induction arr as [|x arr IH]; simpl; [done|].
  destruct (f x); [split; [lia|done]|].
  pose proof (findIndex_ge f arr) as Hge.
  case_bool_decide as Hi; [tauto|].
  split; [lia|]. intros Hnone. apply IH in Hnone. lia.
Qed.

Lemma find_None_forall f arr : find f arr = None <-> forall x, x ∈ arr -> f x = false.
Proof.
  induction arr as [|x arr IH]; simpl.
  - split; [intros _ y Hy; inversion Hy|done].
  - destruct (f x) eqn:Hfx.
    + split; [done|]. intros H. rewrite H in Hfx; [done|left].
    + rewrite IH. split.
      * intros H y [->|Hy]%elem_of_cons; auto.
      * intros H y Hy. apply H. by right.
Qed.

Lemma find_Some_holds f arr x : find f arr = Some x -> f x = true /\ x ∈ arr.
Proof.
  induction arr as [|y arr IH]; simpl; [done|].
  destruct (f y) eqn:Hfy.
  - intros [= ->]. split; [done|left].
  - intros [? ?]%IH. split; [done|by right].
Qed.

(** A found index points at the first element satisfying the test. *)
Lemma findIndex_found f arr :
  findIndex f arr <> -1 ->
  exists pre x post,
    arr = pre ++ x :: post /\ f x = true /\ find f arr = Some x
    /\ (forall y, y ∈ pre -> f y = false)
    /\ Z.to_nat (findIndex f arr) = length pre.
Proof.
  induction arr as [|y arr IH]; simpl; [done|].
  destruct (f y) eqn:Hfy.
  - intros _. exists [], y, arr. repeat split; auto. intros z Hz; inversion Hz.
  - pose proof (findIndex_ge f arr). case_bool_decide; [done|]. intros _.
    destruct IH as (pre & x & post & -> & Hx & Hfind & Hpre & Hlen); [done|].
    exists (y :: pre), x, post. repeat split; auto.
    + intros z [->|Hz]%elem_of_cons; auto.
    + simpl. lia.
Qed.

Lemma splice1_middle (pre : list A) x post :
  splice1 (Z.of_nat (length pre)) (pre ++ x :: post) = pre ++ post.
Proof.
  unfold splice1. rewrite Nat2Z.id.
  induction pre as [|y pre IH]; simpl; [by rewrite drop_0|].
  by f_equal.
Qed.

Lemma update_found_split f upd (pre : list A) x post :
  (forall y, y ∈ pre -> f y = false) -> f x = true ->
  update_found f upd (pre ++ x :: post) = pre ++ upd x :: post.
Proof.
  intros Hpre Hx. induction pre as [|y pre IH]; simpl.
  - by rewrite Hx.
  - rewrite (Hpre y) by left. f_equal. apply IH. intros z Hz. apply Hpre. by right.
Qed.

Lemma find_split f (pre : list A) x post :
  (forall y, y ∈ pre -> f y = false) -> f x = true ->
  find f (pre ++ x :: post) = Some x.
Proof.
  intros Hpre Hx. induction pre as [|y pre IH]; simpl.
  - by rewrite Hx.
  - rewrite (Hpre y) by left. apply IH. intros z Hz. apply Hpre. by right.
Qed.

Lemma findIndex_split f (pre : list A) x post :
  (forall y, y ∈ pre -> f y = false) -> f x = true ->
  findIndex f (pre ++ x :: post) = Z.of_nat (length pre).
Proof.
  intros Hpre Hx. induction pre as [|y pre IH]; simpl.
  - by rewrite Hx.
  - rewrite (Hpre y) by left. rewrite IH by (intros z Hz; apply Hpre; by right).
    rewrite bool_decide_eq_false_2 by lia. lia.
Qed.
End ArrayLemmas.

(** ** Trimming *)

Example trim_both_ends : trim (str "  hello world  ") = str "hello world".
Proof. reflexivity. Qed.

Example trim_blank : trim (str "   ") = [] /\ trim [9; 10; 160; 8232; 65279]%N = [].
Proof. split; reflexivity. Qed.

(** ** createPost *)

Section CreatePost.
Variables (now stamp : Z) (raw : jsstring) (w : World).

Lemma createPost_Done_iff :
  fst (createPost now stamp raw w) = Done
  <-> truthy (trim raw) = true \/ truthy_opt (uploadedImage w) = true.
Proof.
  unfold createPost.
  destruct (truthy (trim raw)), (truthy_opt (uploadedImage w)); simpl;
    intuition congruence.
Qed.

(** Without text and without image: the alert, and nothing is written. *)
Lemma createPost_rejected :
  truthy (trim raw) = false -> truthy_opt (uploadedImage w) = false ->
  createPost now stamp raw w = (Alerted AlertEmptyPost, w)
  /\ fails_with (fst (createPost now stamp raw w)) ValidationError.
Proof.
  intros Ht Hi. unfold createPost. rewrite Ht, Hi. simpl.
  split; [done|]. by exists AlertEmptyPost.
Qed.

(** Otherwise the new post is put in front of the others, with the clock
    reading as its id. *)
Lemma createPost_prepends :
  fst (createPost now stamp raw w) = Done ->
  exists newPost,
    posts (snd (createPost now stamp raw w)) = newPost :: posts w
    /\ posts (snd (createPost now stamp raw w)) !! 0%nat = Some newPost
    /\ Post.id newPost = now
    /\ Post.userId newPost = currentUserId w
    /\ Post.content newPost = trim raw
    /\ Post.image newPost = uploadedImage w
    /\ Post.isShared newPost = false.
Proof.
  unfold createPost.
  destruct (negb (truthy (trim raw)) && negb (truthy_opt (uploadedImage w)));
    [done|]. intros _. simpl. eexists. repeat split.
Qed.

(** The id is new exactly when the clock reading is. *)
Lemma createPost_ids :
  fst (createPost now stamp raw w) = Done ->
  post_ids (snd (createPost now stamp raw w)) = now :: post_ids w.
Proof.
  intros (p & Hp & _ & Hid & _)%createPost_prepends.
  unfold post_ids. rewrite Hp. simpl. by rewrite Hid.
Qed.
End CreatePost.

(** With a clock reading that no stored post has as its id, distinct ids
    stay distinct. *)
Lemma createPost_ids_unique_when_clock_fresh (now stamp : Z) (raw : jsstring) (w : World) :
  NoDup (post_ids w) -> now ∉ post_ids w ->
  NoDup (post_ids (snd (createPost now stamp raw w))).
Proof.
  intros Hnodup Hfresh. unfold createPost.
  destruct (_ && _); [done|]. simpl. by apply NoDup_cons.
Qed.

(** C1. [createPost] takes the id of the new post from the clock: at two
    calls that read the same millisecond, the second one succeeds and puts
    at index 0 a post whose id is the id of the post already stored, so
    the id is not distinct from every prior id.  (That it succeeds exactly
    when the trimmed text or the image is there, rejects with the alert and
    writes nothing otherwise, and puts the new post in front, are
    [createPost_Done_iff], [createPost_rejected], [createPost_prepends].) *)
Theorem createPost_id_not_fresh :
  let w := snd (createPost 1000 1000 (str "first") initial) in
  let r := createPost 1000 1000 (str "second") w in
  post_ids w = [1000]
  /\ fst r = Done
  /\ exists newPost,
       posts (snd r) !! 0%nat = Some newPost
       /\ Post.content newPost = str "second"
       /\ Post.id newPost ∈ post_ids w.
Proof.
  simpl. split; [reflexivity|]. split; [reflexivity|].
  eexists. split; [reflexivity|]. split; [reflexivity|]. simpl. left.
Qed.

(** ** Uniqueness of ids *)

(** C7. Ids are clock readings, so creations in the same millisecond share
    their id: two posts made by [createPost], a post and its share made by
    [sharePost], and two comments made by [addComment] end up with equal
    ids. *)
Theorem ids_collide_within_a_millisecond :
  let two_posts :=
    run [CreatePost 1000 1000 (str "first"); CreatePost 1000 1000 (str "second")] initial in
  let post_and_share :=
    run [CreatePost 1000 1000 (str "first"); SelectUser 2; SharePost 1000 1000 1000] initial in
  let two_comments :=
    run [CreatePost 1000 1000 (str "first"); OpenCommentModal 1000;
         AddComment 2000 2000 (str "nice"); AddComment 2000 2000 (str "indeed")] initial in
  post_ids two_posts = [1000; 1000] /\ ~ NoDup (post_ids two_posts)
  /\ post_ids post_and_share = [1000; 1000] /\ ~ NoDup (post_ids post_and_share)
  /\ comment_ids two_comments = [2000; 2000] /\ ~ NoDup (comment_ids two_comments).
Proof.
  assert (Hdup : forall x : Z, ~ NoDup [x; x]).
  { intros x H. apply NoDup_cons in H as [H _]. apply H. left. }
  repeat split; try apply Hdup; vm_compute; reflexivity.
Qed.

(** ** sharePost *)

Lemma some_false_filter {A} (f : A -> bool) (arr : list A) :
  some f arr = false <-> List.filter f arr = [].
Proof.
  unfold some. induction arr as [|x arr IH]; simpl; [done|].
  destruct (f x); simpl; [split; discriminate|done].
Qed.

Lemma some_true_exists {A} (f : A -> bool) (arr : list A) :
  some f arr = true <-> exists x, x ∈ arr /\ f x = true.
Proof.
  unfold some. rewrite existsb_exists.
  split; intros (x & Hx & Hf); exists x; split; auto; by apply list_elem_of_In.
Qed.

Lemma find_id_None (pid : Z) (ps : list Post.t) :
  find (fun p => bool_decide (Post.id p = pid)) ps = None <-> pid ∉ List.map Post.id ps.
Proof.
  rewrite find_None_forall. split.
  - intros H Hin. apply list_elem_of_In, in_map_iff in Hin as (p & Hp & Hin).
    apply list_elem_of_In, H in Hin. by case_bool_decide.
  - intros H p Hp. case_bool_decide as Heq; [|done]. exfalso. apply H.
    apply list_elem_of_In, in_map_iff. exists p. split; [done|by apply list_elem_of_In].
Qed.

Lemma is_share_of_test userId originalPostId p :
  bool_decide (Post.userId p = userId) && Post.isShared p
  && bool_decide (Post.originalPostId p = Some originalPostId) = true
  <-> is_share_of userId originalPostId p.
Proof.
  unfold is_share_of. rewrite !andb_true_iff, !bool_decide_eq_true. tauto.
Qed.

Section SharePost.
Variables (now stamp originalPostId : Z) (w : World).

Let lookup := find (fun p => bool_decide (Post.id p = originalPostId)) (posts w).

Lemma sharePost_not_found :
  lookup = None ->
  sharePost now stamp originalPostId w = (Alerted AlertPostNotFound, w).
Proof. unfold lookup, sharePost, getPosts. by intros ->. Qed.

Lemma sharePost_own originalPost :
  lookup = Some originalPost -> Post.userId originalPost = currentUserId w ->
  sharePost now stamp originalPostId w = (Alerted AlertOwnPost, w).
Proof.
  unfold lookup, sharePost, getPosts. intros -> Hown.
  by rewrite bool_decide_eq_true_2.
Qed.

Lemma sharePost_already originalPost :
  lookup = Some originalPost -> Post.userId originalPost <> currentUserId w ->
  (exists p, p ∈ posts w /\ is_share_of (currentUserId w) originalPostId p) ->
  sharePost now stamp originalPostId w = (Alerted AlertAlreadyShared, w).
Proof.
  unfold lookup, sharePost, getPosts. intros -> Hother (p & Hin & Hp).
  rewrite bool_decide_eq_false_2 by done.
  apply is_share_of_test in Hp.
  assert (Hsome : some (fun p => bool_decide (Post.userId p = currentUserId w)
                                 && Post.isShared p
                                 && bool_decide (Post.originalPostId p = Some originalPostId))
                       (posts w) = true)
    by (apply some_true_exists; eauto).
  by rewrite Hsome.
Qed.

Lemma sharePost_Done originalPost :
  lookup = Some originalPost -> Post.userId originalPost <> currentUserId w ->
  shares_of (currentUserId w) originalPostId w = [] ->
  sharePost now stamp originalPostId w
  = (Done, savePosts (sharedPost now stamp originalPostId w originalPost :: posts w) w).
Proof.
  unfold lookup, sharePost, getPosts, shares_of. intros -> Hother Hnone.
  rewrite bool_decide_eq_false_2 by done.
  apply some_false_filter in Hnone. by rewrite Hnone.
Qed.

(** A call that does not run to its end writes nothing. *)
Lemma sharePost_failure_unchanged :
  fst (sharePost now stamp originalPostId w) <> Done ->
  snd (sharePost now stamp originalPostId w) = w.
Proof.
  unfold sharePost.
  destruct (find _ _); [|done]. case_bool_decide; [done|].
  destruct (some _ _); done.
Qed.
End SharePost.

Lemma shares_of_nil_iff userId originalPostId w :
  shares_of userId originalPostId w = []
  <-> ~ exists p, p ∈ posts w /\ is_share_of userId originalPostId p.
Proof.
  unfold shares_of. rewrite <- some_false_filter, <- not_true_iff_false.
  rewrite some_true_exists. split; intros H (p & Hin & Hp); apply H; exists p;
    (split; [done|]); by apply is_share_of_test.
Qed.

(** The guards of [sharePost], in the order of the source, and a second
    call when ids do not collide. Called by the current user [U] for
    [pid]: with no post
    of that id it fails with NotFound; when the post found belongs to [U]
    it fails with InvalidOperation; when it belongs to someone else and a
    post of [U] is already a share of [pid] it fails with AlreadyShared; a
    call that fails leaves the world, and so the posts, as they were. When
    the post found belongs to someone else and [U] has no share of it, the
    call succeeds, a second call for the same [pid] fails with
    AlreadyShared and writes nothing, and exactly one share of [pid] by [U]
    is stored afterwards, provided the id the first call gives the share,
    the clock reading [now], differs from [pid]. *)
Theorem sharePost_guards_and_second_share (now stamp now' stamp' pid : Z) (w : World) :
  let U := currentUserId w in
  let found := find (fun p => bool_decide (Post.id p = pid)) (posts w) in
  let first := sharePost now stamp pid w in
  (pid ∉ post_ids w -> fails_with (fst first) NotFound /\ snd first = w)
  /\ (forall P, found = Some P -> Post.userId P = U ->
        fails_with (fst first) InvalidOperation /\ snd first = w)
  /\ (forall P, found = Some P -> Post.userId P <> U ->
        (exists p, p ∈ posts w /\ is_share_of U pid p) ->
        fails_with (fst first) AlreadyShared /\ snd first = w)
  /\ (fst first <> Done -> snd first = w)
  /\ (forall P, found = Some P -> Post.userId P <> U ->
        shares_of U pid w = [] ->
        now <> pid ->
        let second := sharePost now' stamp' pid (snd first) in
        fst first = Done
        /\ posts (snd first) = sharedPost now stamp pid w P :: posts w
        /\ fails_with (fst second) AlreadyShared
        /\ snd second = snd first
        /\ length (shares_of U pid (snd second)) = 1%nat).
Proof.
  intros U found first. subst U found first. split_and!.
  - intros Habs%find_id_None. rewrite sharePost_not_found by assumption.
    split; [by exists AlertPostNotFound|done].
  - intros P HP Hown. rewrite (sharePost_own now stamp pid w P) by assumption.
    split; [by exists AlertOwnPost|done].
  - intros P HP Hother Hex. rewrite (sharePost_already now stamp pid w P) by assumption.
    split; [by exists AlertAlreadyShared|done].
  - apply sharePost_failure_unchanged.
  - intros P HP Hother Hnone Hfresh.
    cbv zeta. rewrite (sharePost_Done now stamp pid w P) by assumption. simpl.
    assert (Hsecond : sharePost now' stamp' pid
                        (savePosts (sharedPost now stamp pid w P :: posts w) w)
                      = (Alerted AlertAlreadyShared,
                         savePosts (sharedPost now stamp pid w P :: posts w) w)).
    { apply (sharePost_already _ _ _ _ P); simpl.
      - by rewrite bool_decide_eq_false_2.
      - done.
      - eexists. split; [left|]. by repeat split. }
    rewrite Hsecond. simpl. split_and!; try done.
    + by exists AlertAlreadyShared.
    + unfold shares_of in *. simpl. rewrite !bool_decide_eq_true_2 by done.
      simpl. by rewrite Hnone.
Qed.

Lemma sharePost_guards_and_second_share_witness :
  let w := run [CreatePost 1000 1000 (str "hello"); SelectUser 2] initial in
  let first := sharePost 2000 2000 1000 w in
  let second := sharePost 3000 3000 1000 (snd first) in
  fst first = Done
  /\ fails_with (fst second) AlreadyShared
  /\ snd second = snd first
  /\ length (shares_of 2 1000 (snd second)) = 1%nat
  /\ fails_with (fst (sharePost 2000 2000 999 w)) NotFound
  /\ fails_with (fst (sharePost 2000 2000 1000 (snd (selectUser 1 w)))) InvalidOperation.
Proof.
  set (w := run [CreatePost 1000 1000 (str "hello"); SelectUser 2] initial).
  set (P := Post.mk 1000 1 (str "hello") None 1000 false None None).
  destruct (sharePost_guards_and_second_share 2000 2000 3000 3000 1000 w)
    as (_ & _ & _ & _ & Htwice).
  destruct (Htwice P) as (H1 & _ & H2 & H3 & H4);
    [reflexivity | vm_compute; discriminate | reflexivity | lia |].
  destruct (sharePost_guards_and_second_share 2000 2000 3000 3000 999 w)
    as (Habsent & _).
  destruct Habsent as [H5 _]; [unfold post_ids; apply find_id_None; reflexivity|].
  destruct (sharePost_guards_and_second_share 2000 2000 3000 3000 1000 (snd (selectUser 1 w)))
    as (_ & Hown & _).
  destruct (Hown P) as [H6 _]; [reflexivity | reflexivity |].
  cbv zeta. fold w. repeat split; assumption.
Defined.

(** [sharePost] has no test on [isShared]: when the post found for the id
    of a share [S] is [S] itself, a user other than the author of [S], who
    has not yet shared it, shares it successfully, and the new post records
    [S] itself as its original, by id and by author, whatever post [S] was
    made from. *)
Theorem sharePost_of_a_share (now stamp : Z) (S : Post.t) (w : World) :
  find (fun p => bool_decide (Post.id p = Post.id S)) (posts w) = Some S ->
  Post.isShared S = true ->
  currentUserId w <> Post.userId S ->
  shares_of (currentUserId w) (Post.id S) w = [] ->
  let r := sharePost now stamp (Post.id S) w in
  fst r = Done
  /\ exists newPost,
       posts (snd r) = newPost :: posts w
       /\ Post.userId newPost = currentUserId w
       /\ Post.isShared newPost = true
       /\ Post.originalPostId newPost = Some (Post.id S)
       /\ Post.originalUserId newPost = Some (Post.userId S)
       /\ (forall root, Post.originalPostId S = Some root -> root <> Post.id S ->
             Post.originalPostId newPost <> Some root)
       /\ (forall author, Post.originalUserId S = Some author -> author <> Post.userId S ->
             Post.originalUserId newPost <> Some author).
Proof.
  intros Hfound Hshared Hother Hnone r. subst r.
  rewrite (sharePost_Done now stamp (Post.id S) w S) by (assumption || congruence).
  simpl. split; [done|]. eexists. split; [done|]. simpl.
  split_and!; try done; congruence.
Qed.

(** C2. [sharePost] takes the id of the share from the clock. User 2
    shares the post of user 1 at the clock reading that is the id of that
    post: the share is stored in front of it under the same id. The second
    call for that id then finds the share, a post of user 2, and fails
    with InvalidOperation, the own-post alert, not with AlreadyShared.
    (The three guards, and the second call failing with AlreadyShared when
    the ids differ, are [sharePost_guards_and_second_share].) *)
Theorem sharePost_second_share_after_id_collision :
  let w := run [CreatePost 1000 1000 (str "hello"); SelectUser 2] initial in
  let first := handle_and_render 5000 (SharePost 1000 1000 1000) w in
  let second := handle_and_render 6000 (SharePost 2000 2000 1000) (snd first) in
  post_ids w = [1000]
  /\ fst first = Done
  /\ posts (snd first)
     = [Post.mk 1000 2 (str "hello") None 1000 true (Some 1000) (Some 1);
        Post.mk 1000 1 (str "hello") None 1000 false None None]
  /\ second = (Alerted AlertOwnPost, snd first)
  /\ fails_with (fst second) InvalidOperation
  /\ ~ fails_with (fst second) AlreadyShared.
Proof.
  cbv zeta. split_and!; try reflexivity.
  - exists AlertOwnPost. split; reflexivity.
  - intros (a & Ha & Hk). vm_compute in Ha. injection Ha as <-. discriminate.
Qed.

(** C9. [sharePost] looks the post up by its id, and ids are clock
    readings. User 2 holds a share [S] with id 2000; user 3, who is not its
    author and has no share of it, made a post at the clock reading 2000
    as well. The call of [sharePost] for the id of [S] by user 3 finds that
    post, not [S], and is refused with the own-post alert: no share of [S]
    is made. (That the call succeeds and records [S] as the original when
    the lookup finds [S] is [sharePost_of_a_share].) *)
Theorem sharePost_of_a_share_after_id_collision :
  let w := run [CreatePost 1000 1000 (str "hello"); SelectUser 2;
                SharePost 2000 2000 1000; SelectUser 3;
                CreatePost 2000 2000 (str "mine")] initial in
  let S := Post.mk 2000 2 (str "hello") None 2000 true (Some 1000) (Some 1) in
  posts w = [Post.mk 2000 3 (str "mine") None 2000 false None None;
             S;
             Post.mk 1000 1 (str "hello") None 1000 false None None]
  /\ Post.isShared S = true
  /\ currentUserId w <> Post.userId S
  /\ shares_of (currentUserId w) (Post.id S) w = []
  /\ handle_and_render 5000 (SharePost 3000 3000 (Post.id S)) w = (Alerted AlertOwnPost, w).
Proof. cbv zeta. split_and!; try reflexivity. vm_compute. discriminate. Qed.

(** The scenario of the specification: user 2 shares the post of user 1. *)
Example sharePost_scenario :
  let w := run [CreatePost 1000 1000 (str "hello"); SelectUser 2;
                SharePost 2000 2000 1000] initial in
  posts w
  = [Post.mk 2000 2 (str "hello") None 2000 true (Some 1000) (Some 1);
     Post.mk 1000 1 (str "hello") None 1000 false None None]
  /\ Reference.listByUser 1 w = [Post.mk 1000 1 (str "hello") None 1000 false None None].
Proof. split; reflexivity. Qed.

Lemma sharePost_of_a_share_witness :
  let w := run [CreatePost 1000 1000 (str "hello"); SelectUser 2;
                SharePost 2000 2000 1000; SelectUser 3] initial in
  let r := sharePost 3000 3000 2000 w in
  fst r = Done
  /\ exists newPost,
       posts (snd r) !! 0%nat = Some newPost
       /\ Post.originalPostId newPost = Some 2000
       /\ Post.originalUserId newPost = Some 2.
Proof.
  set (w := run [CreatePost 1000 1000 (str "hello"); SelectUser 2;
                 SharePost 2000 2000 1000; SelectUser 3] initial).
  set (S := Post.mk 2000 2 (str "hello") None 2000 true (Some 1000) (Some 1)).
  destruct (sharePost_of_a_share 3000 3000 S w)
    as (Hdone & newPost & Hposts & _ & _ & Hid & Huser & _);
    [reflexivity | reflexivity | vm_compute; discriminate | reflexivity |].
  cbv zeta. fold w. split; [exact Hdone|].
  exists newPost. change (Post.id S) with 2000 in *. rewrite Hposts.
  repeat split; assumption.
Defined.

(** ** toggleLike *)

Lemma indexOf_absent (x : Z) (arr : list Z) : indexOf x arr = -1 <-> x ∉ arr.
Proof.
  unfold indexOf. rewrite findIndex_find_None, find_None_forall. split.
  - intros H Hin. apply H in Hin. by case_bool_decide.
  - intros H y Hy. case_bool_decide; [by subst|done].
Qed.

Lemma indexOf_present (x : Z) (arr : list Z) :
  indexOf x arr <> -1 ->
  exists pre post,
    arr = pre ++ x :: post /\ (x ∉ pre) /\ splice1 (indexOf x arr) arr = pre ++ post.
Proof.
  intros Hi. pose proof (findIndex_ge (fun y => bool_decide (y = x)) arr) as Hge.
  destruct (findIndex_found _ _ Hi) as (pre & y & post & Harr & Hy & _ & Hpre & Hlen).
  apply bool_decide_eq_true in Hy. subst y. exists pre, post. split_and!; [done|..].
  - intros Hin. apply Hpre in Hin. by case_bool_decide.
  - unfold indexOf in *.
    replace (findIndex (fun y => bool_decide (y = x)) arr) with (Z.of_nat (length pre)) by lia.
    rewrite Harr. apply splice1_middle.
Qed.

Lemma toggleLike_likes postId w :
  likes (snd (toggleLike postId w))
  = <[postId := toggled (currentUserId w) (default [] (likes w !! postId))]> (likes w).
Proof.
  unfold toggleLike, toggled, getLikes. simpl.
  destruct (likes w !! postId) as [arr|] eqn:Harr; simpl.
  - by rewrite Harr.
  - by rewrite lookup_insert_eq, insert_insert_eq.
Qed.

Section Toggled.
Variables (u : Z) (arr : list Z).
Hypothesis Hnodup : NoDup arr.

Lemma toggled_NoDup : NoDup (toggled u arr).
Proof.
  unfold toggled. case_bool_decide as Hi.
  - apply indexOf_absent in Hi. unfold push. apply NoDup_app. split_and!; [done| |].
    + intros x Hx ->%list_elem_of_singleton. done.
    + apply NoDup_singleton.
  - destruct (indexOf_present _ _ Hi) as (pre & post & Harr & _ & ->).
    rewrite Harr in Hnodup. apply NoDup_app in Hnodup as (Hpre & Hdisj & Hpost).
    apply NoDup_cons in Hpost as [_ Hpost]. apply NoDup_app. split_and!; [done| |done].
    intros x Hx Hx'. apply (Hdisj x Hx). by right.
Qed.

Lemma toggled_elem : u ∈ toggled u arr <-> u ∉ arr.
Proof.
  unfold toggled. case_bool_decide as Hi.
  - apply indexOf_absent in Hi. unfold push. rewrite elem_of_app, list_elem_of_singleton.
    tauto.
  - destruct (indexOf_present _ _ Hi) as (pre & post & Harr & Hpre & ->).
    rewrite Harr in Hnodup. apply NoDup_app in Hnodup as (_ & Hdisj & Hpost).
    apply NoDup_cons in Hpost as [Hpost _].
    rewrite Harr, !elem_of_app, elem_of_cons. tauto.
Qed.

Lemma toggled_length :
  length (toggled u arr)
  = if bool_decide (u ∈ arr) then pred (length arr) else S (length arr).
Proof.
  unfold toggled. case_bool_decide as Hi.
  - apply indexOf_absent in Hi. rewrite bool_decide_eq_false_2 by done.
    unfold push. rewrite length_app. simpl. lia.
  - destruct (indexOf_present _ _ Hi) as (pre & post & Harr & Hpre & ->).
    rewrite bool_decide_eq_true_2.
    + rewrite Harr, !length_app. simpl. lia.
    + rewrite Harr, elem_of_app, elem_of_cons. tauto.
Qed.
End Toggled.

Lemma toggled_twice_length (u : Z) (arr : list Z) :
  NoDup arr -> length (toggled u (toggled u arr)) = length arr.
Proof.
  intros Hnodup.
  rewrite toggled_length by by apply toggled_NoDup.
  rewrite toggled_length by done.
  pose proof (toggled_elem u arr Hnodup) as Helem.
  destruct (decide (u ∈ arr)) as [Hin|Hout].
  - rewrite bool_decide_eq_false_2 by tauto. rewrite bool_decide_eq_true_2 by done.
    destruct arr; [by apply elem_of_nil in Hin|simpl; lia].
  - rewrite bool_decide_eq_true_2 by tauto. by rewrite bool_decide_eq_false_2 by done.
Qed.

(** The like shown on the card of [post] reads the array of its id. *)
Lemma isLiked_after_toggle (post : Post.t) (w : World) :
  isLiked post (snd (toggleLike (Post.id post) w))
  = bool_decide (currentUserId w
                 ∈ toggled (currentUserId w) (default [] (likes w !! Post.id post))).
Proof.
  unfold isLiked, getLikes. rewrite toggleLike_likes, lookup_insert_eq. done.
Qed.

Lemma likeCount_after_toggle (post : Post.t) (w : World) :
  likeCount post (snd (toggleLike (Post.id post) w))
  = length (toggled (currentUserId w) (default [] (likes w !! Post.id post))).
Proof.
  unfold likeCount, getLikes. rewrite toggleLike_likes, lookup_insert_eq. done.
Qed.

Lemma isLiked_unfold (post : Post.t) (w : World) :
  isLiked post w = bool_decide (currentUserId w ∈ default [] (likes w !! Post.id post)).
Proof.
  unfold isLiked, getLikes. by destruct (likes w !! Post.id post).
Qed.

Lemma likeCount_unfold (post : Post.t) (w : World) :
  likeCount post w = length (default [] (likes w !! Post.id post)).
Proof. unfold likeCount, len, getLikes. by destruct (likes w !! Post.id post). Qed.

(** C3. For a post [P] whose like list holds no user twice, two calls of
    [toggleLike(P.id)] by the current user in a row: the first flips
    whether the user likes [P], the second flips it back, and the like
    count of [P] is afterwards what it was. *)
Theorem toggleLike_twice_restores (P : Post.t) (w : World) :
  NoDup (default [] (likes w !! Post.id P)) ->
  let w1 := snd (toggleLike (Post.id P) w) in
  let w2 := snd (toggleLike (Post.id P) w1) in
  currentUserId w2 = currentUserId w
  /\ isLiked P w1 = negb (isLiked P w)
  /\ isLiked P w2 = negb (isLiked P w1)
  /\ isLiked P w2 = isLiked P w
  /\ likeCount P w2 = likeCount P w.
Proof.
  intros Hnodup w1 w2.
  set (u := currentUserId w). set (arr := default [] (likes w !! Post.id P)) in *.
  assert (Hu1 : currentUserId w1 = u) by done.
  assert (Harr1 : default [] (likes w1 !! Post.id P) = toggled u arr).
  { subst w1. by rewrite toggleLike_likes, lookup_insert_eq. }
  assert (H1 : isLiked P w1 = negb (isLiked P w)).
  { subst w1. rewrite isLiked_after_toggle, isLiked_unfold. fold u arr.
    pose proof (toggled_elem u arr Hnodup).
    destruct (decide (u ∈ arr)).
    - rewrite bool_decide_eq_false_2 by tauto. by rewrite bool_decide_eq_true_2.
    - rewrite bool_decide_eq_true_2 by tauto. by rewrite bool_decide_eq_false_2. }
  assert (H2 : isLiked P w2 = negb (isLiked P w1)).
  { subst w2. rewrite isLiked_after_toggle, (isLiked_unfold P w1), Hu1, Harr1.
    pose proof (toggled_elem u (toggled u arr) (toggled_NoDup u arr Hnodup)).
    destruct (decide (u ∈ toggled u arr)).
    - rewrite bool_decide_eq_false_2 by tauto. by rewrite bool_decide_eq_true_2.
    - rewrite bool_decide_eq_true_2 by tauto. by rewrite bool_decide_eq_false_2. }
  split_and!; [done|done|done| |].
  - rewrite H2, H1. apply negb_involutive.
  - subst w2. rewrite likeCount_after_toggle, Hu1, Harr1, likeCount_unfold.
    by apply toggled_twice_length.
Qed.

Lemma toggleLike_twice_restores_witness :
  let P := Post.mk 1000 1 (str "hello") None 1000 false None None in
  let w := run [CreatePost 1000 1000 (str "hello"); SelectUser 2; ToggleLike 1000;
                SelectUser 3] initial in
  let w1 := snd (toggleLike 1000 w) in
  let w2 := snd (toggleLike 1000 w1) in
  isLiked P w = false /\ isLiked P w1 = true /\ isLiked P w2 = false
  /\ likeCount P w = 1%nat /\ likeCount P w2 = 1%nat.
Proof.
  set (P := Post.mk 1000 1 (str "hello") None 1000 false None None).
  set (w := run [CreatePost 1000 1000 (str "hello"); SelectUser 2; ToggleLike 1000;
                 SelectUser 3] initial).
  assert (Hnodup : NoDup (default [] (likes w !! Post.id P))).
  { vm_compute. apply NoDup_singleton. }
  destruct (toggleLike_twice_restores P w Hnodup) as (_ & H1 & _ & H2 & H3).
  change (Post.id P) with 1000 in *.
  assert (H0 : isLiked P w = false) by (vm_compute; reflexivity).
  assert (Hc : likeCount P w = 1%nat) by (vm_compute; reflexivity).
  cbv zeta. rewrite H2, H3, H1, H0, Hc. repeat split.
Defined.

(** C10. [toggleLike(postId)] writes the [likes] item only, and in it the
    array of [postId] only: the array of every other post id, the posts
    and the comments are as before. *)
Theorem toggleLike_frame (postId : Z) (w : World) :
  let w' := snd (toggleLike postId w) in
  (forall postId', postId' <> postId -> likes w' !! postId' = likes w !! postId')
  /\ posts w' = posts w
  /\ comments w' = comments w.
Proof.
  intros w'. split_and!; [|done|done].
  intros postId' Hne. subst w'. rewrite toggleLike_likes.
  by rewrite lookup_insert_ne.
Qed.

(** ** The likes index holds no duplicates *)

Lemma toggleLike_likes_nodup (postId : Z) (w : World) :
  likes_nodup w -> likes_nodup (snd (toggleLike postId w)).
Proof.
  intros Hinv p arr. rewrite toggleLike_likes.
  destruct (decide (postId = p)) as [->|Hne].
  - rewrite lookup_insert_eq. intros [= <-]. apply toggled_NoDup.
    destruct (likes w !! p) as [arr0|] eqn:Hp; simpl; [by eapply Hinv|constructor].
  - rewrite lookup_insert_ne by done. apply Hinv.
Qed.

(** The other handlers leave the [likes] item alone. *)
Lemma handle_likes (a : Action) (w : World) :
  (forall postId, a <> ToggleLike postId) -> likes (snd (handle a w)) = likes w.
Proof.
  intros Hother. destruct a; simpl; try done.
  - unfold createPost. by destruct (_ && _).
  - unfold handleImageUpload. destruct file; [|done]. by destruct (negb _).
  - by destruct (Hother postId).
  - unfold addComment. by destruct (negb _).
  - unfold saveEditComment. destruct (negb _); [done|].
    destruct (_ !! _); [|done]. by destruct (find _ _).
  - unfold deleteComment. destruct (negb _); [done|].
    destruct (_ !! _); [|done]. by destruct (negb _).
  - unfold sharePost. destruct (find _ _); [|done].
    case_bool_decide; [done|]. by destruct (some _ _).
Qed.

Lemma handle_likes_nodup (a : Action) (w : World) :
  likes_nodup w -> likes_nodup (snd (handle a w)).
Proof.
  intros Hinv. destruct a as [| | |postId| | | | | | | |];
    try (unfold likes_nodup; rewrite handle_likes by done; exact Hinv).
  by apply toggleLike_likes_nodup.
Qed.

(** C8. No like list ever holds a user twice: this holds of every world
    the handlers can produce from empty storage, it is kept by one call of
    [toggleLike], and so by any sequence of handler calls, the calls of
    [toggleLike] coming in any number and order, from a world where it
    holds. *)
Theorem likes_hold_no_duplicates :
  (forall w, reachable w -> likes_nodup w)
  /\ (forall postId w, likes_nodup w -> likes_nodup (snd (toggleLike postId w)))
  /\ (forall actions w, likes_nodup w -> likes_nodup (run actions w)).
Proof.
  split_and!.
  - induction 1 as [|a w _ IH].
    + intros postId arr. unfold initial. simpl. by rewrite lookup_empty.
    + by apply handle_likes_nodup.
  - apply toggleLike_likes_nodup.
  - induction actions as [|a actions IH]; intros w Hinv; simpl; [done|].
    apply IH. by apply handle_likes_nodup.
Qed.

Lemma reachable_run (actions : list Action) (w : World) :
  reachable w -> reachable (run actions w).
Proof.
  revert w. induction actions as [|a actions IH]; intros w Hw; simpl; [done|].
  apply IH. by constructor.
Qed.

Lemma likes_hold_no_duplicates_witness :
  let w := run [CreatePost 1000 1000 (str "hello"); ToggleLike 1000; SelectUser 2;
                ToggleLike 1000; ToggleLike 1000; SelectUser 3; ToggleLike 1000] initial in
  likes w !! 1000 = Some [1; 3] /\ likes_nodup w
  /\ likes_nodup (snd (toggleLike 1000 w)).
Proof.
  destruct likes_hold_no_duplicates as (Hreach & Htoggle & _).
  cbv zeta. split; [reflexivity|].
  assert (Hnodup : likes_nodup
            (run [CreatePost 1000 1000 (str "hello"); ToggleLike 1000; SelectUser 2;
                  ToggleLike 1000; ToggleLike 1000; SelectUser 3; ToggleLike 1000] initial)).
  { apply Hreach, reachable_run, reachable_initial. }
  split; [exact Hnodup|]. apply Htoggle, Hnodup.
Defined.

(** ** Profile statistics *)

Section Sums.
Context {A : Type}.
Implicit Types (g : A -> nat) (d c : A -> bool) (l : list A).

(** A [forEach] that adds [g x] under a guard. *)
Lemma forEach_guarded_sum c d g l (acc : nat) :
  (forall x, d x = false -> g x = 0%nat) ->
  fold_left (fun acc x => if c x && d x then (acc + g x)%nat else acc) l acc
  = (acc + sum_list (List.map g (List.filter c l)))%nat.
Proof.
  intros Hd. revert acc. induction l as [|x l IH]; intros acc; simpl; [lia|].
  rewrite IH. destruct (c x); simpl.
  - destruct (d x) eqn:Hdx; [lia|]. rewrite (Hd x Hdx). lia.
  - done.
Qed.

(** A [forEach] that keeps two totals. *)
Lemma forEach_two_sums d1 g1 d2 g2 l (acc1 acc2 : nat) :
  (forall x, d1 x = false -> g1 x = 0%nat) ->
  (forall x, d2 x = false -> g2 x = 0%nat) ->
  fold_left (fun '(t1, t2) x =>
               let t1 := if d1 x then (t1 + g1 x)%nat else t1 in
               let t2 := if d2 x then (t2 + g2 x)%nat else t2 in
               (t1, t2)) l (acc1, acc2)
  = ((acc1 + sum_list (List.map g1 l))%nat, (acc2 + sum_list (List.map g2 l))%nat).
Proof.
  intros H1 H2. revert acc1 acc2.
  induction l as [|x l IH]; intros acc1 acc2; simpl; [f_equal; lia|].
  rewrite IH. destruct (d1 x) eqn:Hd1, (d2 x) eqn:Hd2;
    rewrite ?(H1 x Hd1), ?(H2 x Hd2); f_equal; lia.
Qed.
End Sums.

Lemma len_undefined {A} (o : option (list A)) : defined o = false -> len o = 0%nat.
Proof. by destruct o. Qed.

Lemma currentUserStats_reference (w : World) :
  currentUserStats w = Reference.stats (currentUserId w) w.
Proof.
  unfold currentUserStats, Reference.stats, Reference.postCount, Reference.likeCount,
    Reference.commentCount, Reference.listByUser, Reference.countFor, Reference.listFor,
    getPosts, getLikes, getComments.
  rewrite (forEach_guarded_sum
             (fun post => bool_decide (Post.userId post = currentUserId w))
             (fun post => defined (likes w !! Post.id post))
             (fun post => len (likes w !! Post.id post)))
    by (intros post; apply len_undefined).
  rewrite (forEach_guarded_sum
             (fun post => bool_decide (Post.userId post = currentUserId w))
             (fun post => defined (comments w !! Some (Post.id post)))
             (fun post => len (comments w !! Some (Post.id post))))
    by (intros post; apply len_undefined).
  done.
Qed.

Lemma userStats_reference (userId : Z) (w : World) :
  userStats userId w = Reference.stats userId w.
Proof.
  unfold userStats, Reference.stats, Reference.postCount, Reference.likeCount,
    Reference.commentCount, Reference.listByUser, Reference.countFor, Reference.listFor,
    getPosts, getLikes, getComments.
  rewrite (forEach_two_sums
             (fun post => defined (likes w !! Post.id post))
             (fun post => len (likes w !! Post.id post))
             (fun post => defined (comments w !! Some (Post.id post)))
             (fun post => len (comments w !! Some (Post.id post))))
    by (intros post; apply len_undefined).
  done.
Qed.

(** C4. For every user id and every content of the three collections,
    both profile panels show the reference aggregation: the number of the
    user's posts, and the sums over those posts of the lengths of the like
    list and of the comment list stored under the post's id, a missing
    list counting as zero.  The panels are drawn for the ids of the user
    directory. *)
Theorem profile_statistics_match_reference (userId : Z) (w : World) :
  userStats userId w = Reference.stats userId w
  /\ currentUserStats w = Reference.stats (currentUserId w) w
  /\ showUserProfile userId w
     = match getUserById userId with
       | Some _ => Some (Reference.stats userId w)
       | None => None
       end
  /\ updateCurrentUserProfile w
     = match getUserById (currentUserId w) with
       | Some _ => Some (Reference.stats (currentUserId w) w)
       | None => None
       end.
Proof.
  unfold showUserProfile, updateCurrentUserProfile.
  rewrite userStats_reference, currentUserStats_reference. split_and!; try done.
Qed.

(** The scenario of the specification: one post of user 1, liked and
    commented by user 2. *)
Example profile_statistics_scenario :
  let w := run [CreatePost 1000 1000 (str "hello"); SelectUser 2; ToggleLike 1000;
                OpenCommentModal 1000; AddComment 2000 2000 (str "nice")] initial in
  showUserProfile 1 w = Some (mkStats 1 1 1)
  /\ updateCurrentUserProfile w = Some (mkStats 0 0 0)
  /\ showUserProfile 4 w = None.
Proof. vm_compute. done. Qed.

(** ** Editing and deleting comments *)

Lemma truthy_false (s : jsstring) : truthy s = false <-> s = [].
Proof. by destruct s. Qed.

Lemma no_comment_with_find (commentId : Z) (w : World) (arr : list Comment.t) :
  comments w !! currentPostId w = Some arr -> no_comment_with commentId w ->
  find (fun c => bool_decide (Comment.id c = commentId)) arr = None.
Proof.
  unfold no_comment_with, current_comments. intros -> Hno. simpl in Hno.
  apply find_None_forall. intros c Hc. by apply bool_decide_eq_false_2, Hno.
Qed.

Section FirstMatch.
Variables (commentId : Z) (pre : list Comment.t) (c : Comment.t) (post : list Comment.t).
Hypothesis Hc : Comment.id c = commentId.
Hypothesis Hpre : forall c', c' ∈ pre -> Comment.id c' <> commentId.

Let is_it := fun c : Comment.t => bool_decide (Comment.id c = commentId).

Lemma first_match_pre : forall y, y ∈ pre -> is_it y = false.
Proof. intros y Hy. by apply bool_decide_eq_false_2, Hpre. Qed.

Lemma first_match_it : is_it c = true.
Proof. by apply bool_decide_eq_true_2. Qed.
End FirstMatch.

(** C5, as the handler has it. [saveEditComment] tests the new text first:
    when it is empty once trimmed the call fails with ValidationError,
    whether or not the comment exists. When no comment under the post has
    the id, the call does not succeed. Either way nothing is written. With
    a non-empty text and a comment of that id under the post, the first
    such comment gets the trimmed text and keeps its id, its author and its
    timestamp; the comments before and after it, the lists of the other
    posts, the posts and the likes are as before. *)
Theorem saveEditComment_edits_text_only (commentId : Z) (raw : jsstring) (w : World) :
  let r := saveEditComment commentId raw w in
  (trim raw = [] -> fails_with (fst r) ValidationError /\ snd r = w)
  /\ (no_comment_with commentId w -> fst r <> Done /\ snd r = w)
  /\ (forall pre c post,
        trim raw <> [] ->
        comments w !! currentPostId w = Some (pre ++ c :: post) ->
        Comment.id c = commentId ->
        (forall c', c' ∈ pre -> Comment.id c' <> commentId) ->
        fst r = Done
        /\ exists c',
             comments (snd r) = <[currentPostId w := pre ++ c' :: post]> (comments w)
             /\ Comment.text c' = trim raw
             /\ Comment.id c' = Comment.id c
             /\ Comment.userId c' = Comment.userId c
             /\ Comment.timestamp c' = Comment.timestamp c
             /\ posts (snd r) = posts w
             /\ likes (snd r) = likes w).
Proof.
  intros r. subst r. unfold saveEditComment, getComments. split_and!.
  - intros ->. simpl. split; [by exists AlertEmptyEdit|done].
  - intros Hno. destruct (negb (truthy (trim raw))); [done|].
    destruct (comments w !! currentPostId w) as [arr|] eqn:Harr; [|done].
    by rewrite (no_comment_with_find commentId w arr).
  - intros pre c post Htext Harr Hc Hpre.
    destruct (truthy (trim raw)) eqn:Ht; [|by apply truthy_false in Ht]. simpl.
    rewrite Harr.
    rewrite (find_split _ pre c post)
      by eauto using first_match_pre, first_match_it.
    rewrite (update_found_split _ _ pre c post)
      by eauto using first_match_pre, first_match_it.
    simpl. split; [done|]. exists (Comment.set_text (trim raw) c). by split_and!.
Qed.

Lemma saveEditComment_edits_text_only_witness :
  let w := run [CreatePost 1000 1000 (str "hello"); OpenCommentModal 1000;
                AddComment 2000 2000 (str "nice"); AddComment 3000 3000 (str "good")]
               initial in
  let r := saveEditComment 3000 (str " better ") w in
  fst r = Done
  /\ comments (snd r) !! Some 1000
     = Some [Comment.mk 2000 1 (str "nice") 2000; Comment.mk 3000 1 (str "better") 3000]
  /\ fails_with (fst (saveEditComment 3000 (str "  ") w)) ValidationError
  /\ fst (saveEditComment 9999 (str "better") w) <> Done.
Proof.
  set (w := run [CreatePost 1000 1000 (str "hello"); OpenCommentModal 1000;
                 AddComment 2000 2000 (str "nice"); AddComment 3000 3000 (str "good")]
                initial).
  destruct (saveEditComment_edits_text_only 3000 (str " better ") w) as (_ & _ & Hedit).
  destruct (Hedit [Comment.mk 2000 1 (str "nice") 2000]
                  (Comment.mk 3000 1 (str "good") 3000) [])
    as (Hdone & c' & Hcs & _);
    [vm_compute; discriminate | reflexivity | reflexivity
    | intros c0 ->%list_elem_of_singleton; vm_compute; discriminate |].
  destruct (saveEditComment_edits_text_only 3000 (str "  ") w) as (Hempty & _).
  destruct Hempty as [Hval _]; [reflexivity|].
  destruct (saveEditComment_edits_text_only 9999 (str "better") w) as (_ & Habsent & _).
  destruct Habsent as [Hnot _].
  { intros c0 Hc0. vm_compute in Hc0.
    apply elem_of_cons in Hc0 as [->|Hc0]; [vm_compute; discriminate|].
    apply list_elem_of_singleton in Hc0 as ->. vm_compute; discriminate. }
  cbv zeta. fold w. split_and!; [exact Hdone|reflexivity|exact Hval|exact Hnot].
Defined.

(** C5 as stated fails: with no comment of the id under the post and an
    empty new text the call fails with ValidationError, not NotFound, the
    text being tested first; with a non-empty text it ends in a
    [TypeError], and no branch of the handler reports NotFound. *)
Lemma saveEditComment_absent_comment_not_NotFound :
  let w := run [CreatePost 1000 1000 (str "hello"); OpenCommentModal 1000;
                AddComment 2000 2000 (str "nice")] initial in
  current_comments w = [Comment.mk 2000 1 (str "nice") 2000]
  /\ saveEditComment 9999 (str "  ") w = (Alerted AlertEmptyEdit, w)
  /\ ~ fails_with (fst (saveEditComment 9999 (str "  ") w)) NotFound
  /\ saveEditComment 9999 (str "edited") w = (TypeError, w)
  /\ ~ fails_with (fst (saveEditComment 9999 (str "edited") w)) NotFound.
Proof.
  cbv zeta. split_and!; try reflexivity.
  - intros (a & Ha & Hk). vm_compute in Ha. injection Ha as <-. discriminate.
  - intros (a & Ha & Hk). vm_compute in Ha. discriminate.
Qed.

(** C6, as the handler has it. [deleteComment] first asks for a
    confirmation and does nothing when it is declined. Once confirmed: when
    a comment of that id is stored under the post, the call removes the
    first one, keeps every other comment of that post in place and the
    lists of the other posts, the posts and the likes as they are; when
    none has the id, the comments index is left as it is. The call returns
    no value: when the post has a list of comments it returns [undefined],
    the same whether or not a comment was removed. *)
Theorem deleteComment_removes_first_match (commentId : Z) (w : World) :
  let r := deleteComment true commentId w in
  deleteComment false commentId w = (Cancelled, w)
  /\ (forall pre c post,
        comments w !! currentPostId w = Some (pre ++ c :: post) ->
        Comment.id c = commentId ->
        (forall c', c' ∈ pre -> Comment.id c' <> commentId) ->
        fst r = Done
        /\ returned (fst r) = Some VUndefined
        /\ comments (snd r) = <[currentPostId w := pre ++ post]> (comments w)
        /\ posts (snd r) = posts w
        /\ likes (snd r) = likes w)
  /\ (no_comment_with commentId w -> snd r = w)
  /\ (forall arr,
        comments w !! currentPostId w = Some arr -> no_comment_with commentId w ->
        r = (Done, w) /\ returned (fst r) = Some VUndefined)
  /\ (forall b confirmed,
        returned (fst (deleteComment confirmed commentId w)) <> Some (VBool b)).
Proof.
  intros r. subst r. unfold deleteComment, getComments. split_and!.
  - done.
  - intros pre c post Harr Hc Hpre. simpl. rewrite Harr.
    rewrite (findIndex_split _ pre c post)
      by eauto using first_match_pre, first_match_it.
    rewrite bool_decide_eq_false_2 by lia. simpl.
    by rewrite splice1_middle.
  - intros Hno. simpl.
    destruct (comments w !! currentPostId w) as [arr|] eqn:Harr; [|done].
    pose proof (no_comment_with_find commentId w arr Harr Hno) as Hnone.
    apply findIndex_find_None in Hnone. by rewrite Hnone.
  - intros arr Harr Hno. simpl. rewrite Harr.
    pose proof (no_comment_with_find commentId w arr Harr Hno) as Hnone.
    apply findIndex_find_None in Hnone. by rewrite Hnone.
  - intros b confirmed. destruct confirmed; simpl; [|done].
    destruct (comments w !! currentPostId w); [|done].
    by destruct (negb _).
Qed.

Lemma deleteComment_removes_first_match_witness :
  let w := run [CreatePost 1000 1000 (str "hello"); OpenCommentModal 1000;
                AddComment 2000 2000 (str "nice"); AddComment 3000 3000 (str "good")]
               initial in
  comments (snd (deleteComment true 2000 w)) !! Some 1000
  = Some [Comment.mk 3000 1 (str "good") 3000]
  /\ deleteComment true 9999 w = (Done, w).
Proof.
  set (w := run [CreatePost 1000 1000 (str "hello"); OpenCommentModal 1000;
                 AddComment 2000 2000 (str "nice"); AddComment 3000 3000 (str "good")]
                initial).
  destruct (deleteComment_removes_first_match 2000 w) as (_ & Hdel & _).
  destruct (Hdel [] (Comment.mk 2000 1 (str "nice") 2000)
                 [Comment.mk 3000 1 (str "good") 3000])
    as (_ & _ & Hcs & _);
    [reflexivity | reflexivity | intros c0 Hc0; by apply elem_of_nil in Hc0 |].
  destruct (deleteComment_removes_first_match 9999 w) as (_ & _ & _ & Hkeep & _).
  destruct (Hkeep [Comment.mk 2000 1 (str "nice") 2000; Comment.mk 3000 1 (str "good") 3000])
    as [Hsame _]; [reflexivity | |].
  { intros c0 Hc0. vm_compute in Hc0.
    apply elem_of_cons in Hc0 as [->|Hc0]; [vm_compute; discriminate|].
    apply list_elem_of_singleton in Hc0 as ->. vm_compute; discriminate. }
  cbv zeta. fold w. split; [|exact Hsame].
  rewrite Hcs. reflexivity.
Defined.

(** C6 as stated fails: a confirmed call that removes the comment returns
    [undefined], not [true]; one that finds no comment of the id returns
    [undefined], not [false]; for a post that has no list of comments the
    call ends in a [TypeError] instead of completing; and a declined call
    removes nothing although the comment is there. *)
Lemma deleteComment_returns_no_boolean :
  let w := run [CreatePost 1000 1000 (str "hello"); OpenCommentModal 1000;
                AddComment 2000 2000 (str "nice")] initial in
  let w0 := run [CreatePost 1000 1000 (str "hello"); OpenCommentModal 1000] initial in
  comments (snd (deleteComment true 2000 w)) !! Some 1000 = Some []
  /\ returned (fst (deleteComment true 2000 w)) = Some VUndefined
  /\ returned (fst (deleteComment true 2000 w)) <> Some (VBool true)
  /\ deleteComment true 9999 w = (Done, w)
  /\ returned (fst (deleteComment true 9999 w)) <> Some (VBool false)
  /\ deleteComment true 2000 w0 = (TypeError, w0)
  /\ returned (fst (deleteComment true 2000 w0)) = None
  /\ deleteComment false 2000 w = (Cancelled, w).
Proof. cbv zeta. split_and!; try reflexivity; vm_compute; discriminate. Qed.

(** * Further properties of the handlers *)

(** ** Trimming *)

Lemma trimStart_head (s : jsstring) (c : N) :
  head (trimStart s) = Some c -> isWhiteSpace c = false.
Proof.
  induction s as [|a s IH]; simpl; [done|].
  destruct (isWhiteSpace a) eqn:Ha; [done|]. simpl. by intros [= <-].
Qed.

Lemma trimStart_fixed (s : jsstring) :
  (forall c, head s = Some c -> isWhiteSpace c = false) -> trimStart s = s.
Proof. destruct s as [|a s]; simpl; [done|]. intros H. by rewrite (H a). Qed.

Lemma trimStart_suffix (s : jsstring) : exists pre, s = pre ++ trimStart s.
Proof.
  induction s as [|a s [pre IH]]; simpl; [by exists []|].
  destruct (isWhiteSpace a); [|by exists []].
  exists (a :: pre). simpl. by f_equal.
Qed.

Lemma head_rev_last {A} (l : list A) : head (rev l) = last l.
Proof.
  induction l as [|a l IH] using rev_ind; [done|].
  by rewrite rev_app_distr, last_snoc.
Qed.

Lemma trimEnd_last (s : jsstring) (c : N) :
  last (trimEnd s) = Some c -> isWhiteSpace c = false.
Proof.
  unfold trimEnd. rewrite <- head_rev_last, rev_involutive. apply trimStart_head.
Qed.

Lemma trimEnd_prefix (s : jsstring) : exists post, s = trimEnd s ++ post.
Proof.
  unfold trimEnd. destruct (trimStart_suffix (rev s)) as [pre Hpre].
  exists (rev pre). rewrite <- rev_app_distr, <- Hpre. by rewrite rev_involutive.
Qed.

Lemma trimEnd_fixed (s : jsstring) :
  (forall c, last s = Some c -> isWhiteSpace c = false) -> trimEnd s = s.
Proof.
  intros H. unfold trimEnd. rewrite trimStart_fixed; [apply rev_involutive|].
  intros c. rewrite head_rev_last. apply H.
Qed.

(** The trimmed text starts and ends with a code unit that is not white
    space. *)
Lemma trim_ends (s : jsstring) (c : N) :
  head (trim s) = Some c \/ last (trim s) = Some c -> isWhiteSpace c = false.
Proof.
  unfold trim. intros [Hh|Hl]; [|by eapply trimEnd_last].
  destruct (trimEnd_prefix (trimStart s)) as [post Hpost].
  apply (trimStart_head s). rewrite Hpost.
  destruct (trimEnd (trimStart s)); [done|]. done.
Qed.

Lemma trim_idempotent (s : jsstring) : trim (trim s) = trim s.
Proof.
  unfold trim at 1. rewrite trimStart_fixed.
  - apply trimEnd_fixed. intros c Hc. apply (trim_ends s). by right.
  - intros c Hc. apply (trim_ends s). by left.
Qed.

(** ** Posting *)

(** X2. A successful [createPost] stores the trimmed text, which has no white
    space at its ends, and the staged image under the current user, in
    front of the older posts; it clears the staged image and leaves likes,
    comments, the current user and the open dialog alone. *)
Theorem createPost_effect (now stamp : Z) (raw : jsstring) (w : World) :
  fst (createPost now stamp raw w) = Done ->
  let w' := snd (createPost now stamp raw w) in
  posts w'
  = Post.mk now (currentUserId w) (trim raw) (uploadedImage w) stamp false None None
    :: posts w
  /\ (forall c, head (trim raw) = Some c \/ last (trim raw) = Some c ->
                isWhiteSpace c = false)
  /\ uploadedImage w' = None
  /\ likes w' = likes w /\ comments w' = comments w
  /\ currentUserId w' = currentUserId w /\ currentPostId w' = currentPostId w.
Proof.
  unfold createPost.
  destruct (negb (truthy (trim raw)) && negb (truthy_opt (uploadedImage w))); [done|].
  intros _. simpl. split_and!; try done. apply trim_ends.
Qed.

Lemma createPost_effect_witness :
  let w := snd (reader_onload (mkFile (str "image/png") (str "data:image/png;base64,AAAA"))
                              initial) in
  posts (snd (createPost 1000 1001 (str "  hello ") w))
  = [Post.mk 1000 1 (str "hello") (Some (str "data:image/png;base64,AAAA")) 1001 false
       None None].
Proof.
  cbv zeta.
  destruct (createPost_effect 1000 1001 (str "  hello ")
              (snd (reader_onload
                      (mkFile (str "image/png") (str "data:image/png;base64,AAAA"))
                      initial)))
    as (Hposts & _); [reflexivity|].
  rewrite Hposts. reflexivity.
Defined.

(** X3. The staged image is used once: right after a successful [createPost],
    a call with a blank text is rejected. *)
Theorem createPost_uses_image_once (now stamp now' stamp' : Z) (raw raw' : jsstring)
  (w : World) :
  fst (createPost now stamp raw w) = Done -> trim raw' = [] ->
  createPost now' stamp' raw' (snd (createPost now stamp raw w))
  = (Alerted AlertEmptyPost, snd (createPost now stamp raw w)).
Proof.
  intros Hdone Hblank.
  assert (Himg : uploadedImage (snd (createPost now stamp raw w)) = None).
  { unfold createPost in *. by destruct (_ && _). }
  unfold createPost at 1. by rewrite Hblank, Himg.
Qed.

Lemma createPost_uses_image_once_witness :
  let w := snd (reader_onload (mkFile (str "image/png") (str "data:image/png;base64,AAAA"))
                              initial) in
  fst (createPost 1000 1000 (str "") w) = Done
  /\ fst (createPost 2000 2000 (str " ") (snd (createPost 1000 1000 (str "") w)))
     = Alerted AlertEmptyPost.
Proof.
  cbv zeta. split; [reflexivity|].
  rewrite (createPost_uses_image_once 1000 1000 2000 2000 (str "") (str " "));
    reflexivity.
Defined.

(** X4. [handleImageUpload] refuses a file whose type does not start with
    image/ and changes nothing; for an image file too the call returns with
    the world as it was, the image being staged only when the [onload] of
    the reader runs: a post without text made in between, with nothing
    staged before, is refused. Once [onload] has staged a data URL that is
    not empty, which writes nothing to the storage, a post without text is
    stored with that image. *)
Theorem handleImageUpload_stages_images (file : File) (now stamp : Z) (raw : jsstring)
  (w : World) :
  (startsWith (str "image/") (file_type file) = false ->
   handleImageUpload (Some file) w = (Alerted AlertNotImage, w))
  /\ (startsWith (str "image/") (file_type file) = true ->
      handleImageUpload (Some file) w = (Done, w))
  /\ (uploadedImage w = None -> trim raw = [] ->
      createPost now stamp raw (snd (handleImageUpload (Some file) w))
      = (Alerted AlertEmptyPost, w))
  /\ (file_dataURL file <> [] ->
      let w1 := snd (reader_onload file w) in
      posts w1 = posts w /\ likes w1 = likes w /\ comments w1 = comments w
      /\ posts (snd (createPost now stamp raw w1))
         = Post.mk now (currentUserId w) (trim raw) (Some (file_dataURL file)) stamp
             false None None
           :: posts w).
Proof.
  split_and!.
  - unfold handleImageUpload. by intros ->.
  - unfold handleImageUpload. by intros ->.
  - intros Hnone Hblank.
    assert (Hsame : snd (handleImageUpload (Some file) w) = w).
    { unfold handleImageUpload. by destruct (negb _). }
    rewrite Hsame. unfold createPost. by rewrite Hblank, Hnone.
  - intros Hdata. simpl. split_and!; try done.
    unfold createPost. simpl.
    assert (Ht : truthy (file_dataURL file) = true) by by destruct (file_dataURL file).
    by rewrite Ht, andb_false_r.
Qed.

Lemma handleImageUpload_stages_images_witness :
  let png := mkFile (str "image/png") (str "data:image/png;base64,AAAA") in
  let txt := mkFile (str "text/plain") (str "data:text/plain;base64,AAAA") in
  handleImageUpload (Some txt) initial = (Alerted AlertNotImage, initial)
  /\ handleImageUpload (Some png) initial = (Done, initial)
  /\ createPost 1000 1000 [] (snd (handleImageUpload (Some png) initial))
     = (Alerted AlertEmptyPost, initial)
  /\ posts (snd (createPost 1000 1000 [] (snd (reader_onload png initial))))
     = [Post.mk 1000 1 [] (Some (str "data:image/png;base64,AAAA")) 1000 false None None].
Proof.
  cbv zeta.
  destruct (handleImageUpload_stages_images
              (mkFile (str "text/plain") (str "data:text/plain;base64,AAAA"))
              1000 1000 [] initial) as (Hrefused & _).
  destruct (handleImageUpload_stages_images
              (mkFile (str "image/png") (str "data:image/png;base64,AAAA"))
              1000 1000 [] initial) as (_ & Haccepted & Hbetween & Hstaged).
  split_and!.
  - apply Hrefused. reflexivity.
  - apply Haccepted. reflexivity.
  - apply Hbetween; reflexivity.
  - destruct Hstaged as (_ & _ & _ & Hposts); [vm_compute; discriminate|].
    exact Hposts.
Defined.

(** ** Commenting *)

Lemma addComment_comments (now stamp : Z) (raw : jsstring) (w : World) :
  trim raw <> [] ->
  addComment now stamp raw w
  = (Done,
     saveComments
       (<[currentPostId w :=
            current_comments w ++ [Comment.mk now (currentUserId w) (trim raw) stamp]]>
          (comments w)) w).
Proof.
  intros Htext. unfold addComment, current_comments, getComments, push.
  destruct (truthy (trim raw)) eqn:Ht; [|by apply truthy_false in Ht]. simpl.
  destruct (comments w !! currentPostId w) as [arr|] eqn:Harr; simpl.
  - by rewrite Harr.
  - by rewrite lookup_insert_eq, insert_insert_eq.
Qed.

(** X5. [addComment] refuses a blank text and changes nothing; otherwise it
    puts the new comment, with the trimmed text and the current user as
    author, after the comments the post already has, and leaves the lists
    of the other posts, the posts and the likes alone. *)
Theorem addComment_appends (now stamp : Z) (raw : jsstring) (w : World) :
  let r := addComment now stamp raw w in
  (trim raw = [] -> r = (Alerted AlertEmptyComment, w))
  /\ (trim raw <> [] ->
      fst r = Done
      /\ current_comments (snd r)
         = current_comments w ++ [Comment.mk now (currentUserId w) (trim raw) stamp]
      /\ (forall key, key <> currentPostId w -> comments (snd r) !! key = comments w !! key)
      /\ posts (snd r) = posts w /\ likes (snd r) = likes w).
Proof.
  intros r. subst r. split.
  - intros Hblank. unfold addComment. by rewrite Hblank.
  - intros Htext. rewrite addComment_comments by done. simpl. split_and!; try done.
    + unfold current_comments at 1. simpl. by rewrite lookup_insert_eq.
    + intros key Hkey. by rewrite lookup_insert_ne.
Qed.

Lemma addComment_appends_witness :
  let w := run [CreatePost 1000 1000 (str "hello"); OpenCommentModal 1000;
                AddComment 2000 2000 (str "nice")] initial in
  current_comments (snd (addComment 3000 3001 (str " good ") w))
  = [Comment.mk 2000 1 (str "nice") 2000; Comment.mk 3000 1 (str "good") 3001]
  /\ addComment 3000 3001 (str "  ") w = (Alerted AlertEmptyComment, w).
Proof.
  set (w := run [CreatePost 1000 1000 (str "hello"); OpenCommentModal 1000;
                 AddComment 2000 2000 (str "nice")] initial).
  destruct (addComment_appends 3000 3001 (str " good ") w) as [_ Hadd].
  destruct Hadd as (_ & Hlist & _); [vm_compute; discriminate|].
  destruct (addComment_appends 3000 3001 (str "  ") w) as [Hblank _].
  cbv zeta. fold w. split; [rewrite Hlist; reflexivity|].
  apply Hblank. reflexivity.
Defined.

(** X6. Deleting the comment just added, when no older comment of the post has
    its id, gives back the comments the post had; the other posts' lists,
    the posts and the likes were never touched. *)
Theorem addComment_then_deleteComment (now stamp : Z) (raw : jsstring) (w : World) :
  trim raw <> [] -> no_comment_with now w ->
  let w1 := snd (addComment now stamp raw w) in
  let r := deleteComment true now w1 in
  fst r = Done
  /\ current_comments (snd r) = current_comments w
  /\ (forall key, key <> currentPostId w -> comments (snd r) !! key = comments w !! key)
  /\ posts (snd r) = posts w /\ likes (snd r) = likes w.
Proof.
  intros Htext Hfresh w1 r. subst r w1.
  rewrite addComment_comments by done. simpl.
  unfold deleteComment, getComments. simpl. rewrite lookup_insert_eq.
  rewrite (findIndex_split _ (current_comments w) _ []).
  - rewrite bool_decide_eq_false_2 by lia. simpl.
    rewrite splice1_middle, app_nil_r, insert_insert_eq. split_and!; try done.
    + unfold current_comments at 1. simpl. by rewrite lookup_insert_eq.
    + intros key Hkey. simpl. by rewrite lookup_insert_ne.
  - intros c Hc. by apply bool_decide_eq_false_2, Hfresh.
  - by apply bool_decide_eq_true_2.
Qed.

Lemma addComment_then_deleteComment_witness :
  let w := run [CreatePost 1000 1000 (str "hello"); OpenCommentModal 1000;
                AddComment 2000 2000 (str "nice")] initial in
  current_comments (snd (deleteComment true 3000 (snd (addComment 3000 3000 (str "good") w))))
  = [Comment.mk 2000 1 (str "nice") 2000].
Proof.
  set (w := run [CreatePost 1000 1000 (str "hello"); OpenCommentModal 1000;
                 AddComment 2000 2000 (str "nice")] initial).
  destruct (addComment_then_deleteComment 3000 3000 (str "good") w) as (_ & Hback & _).
  - vm_compute; discriminate.
  - intros c Hc. vm_compute in Hc. apply list_elem_of_singleton in Hc as ->.
    vm_compute; discriminate.
  - cbv zeta. fold w. rewrite Hback. reflexivity.
Defined.

Lemma set_text_same (c : Comment.t) : Comment.set_text (Comment.text c) c = c.
Proof. by destruct c. Qed.

Lemma saveComments_same (w : World) : saveComments (comments w) w = w.
Proof. by destruct w. Qed.

(** Saving a comment with the text it already has, a text that is not
    empty and is trimmed, leaves the world as it was. *)
Lemma saveEditComment_same_text (commentId : Z) (arr : list Comment.t) (c : Comment.t)
  (w : World) :
  comments w !! currentPostId w = Some arr ->
  find (fun c0 => bool_decide (Comment.id c0 = commentId)) arr = Some c ->
  Comment.text c <> [] -> trim (Comment.text c) = Comment.text c ->
  saveEditComment commentId (Comment.text c) w = (Done, w).
Proof.
  intros Harr Hfind Hne Htrim. unfold saveEditComment, getComments.
  rewrite Htrim, Harr, Hfind.
  destruct (truthy (Comment.text c)) eqn:Ht; [|by apply truthy_false in Ht].
  simpl.
  assert (Hfix : update_found (fun c0 => bool_decide (Comment.id c0 = commentId))
                   (Comment.set_text (Comment.text c)) arr = arr).
  { clear Harr. induction arr as [|x arr IH]; simpl in *; [done|].
    destruct (bool_decide (Comment.id x = commentId)).
    - injection Hfind as ->. by rewrite set_text_same.
    - f_equal. by apply IH. }
  rewrite Hfix, insert_id by done. by rewrite saveComments_same.
Qed.

Lemma update_found_twice {A} (f : A -> bool) (upd : A -> A) (arr : list A) :
  (forall x, f (upd x) = f x) -> (forall x, upd (upd x) = upd x) ->
  update_found f upd (update_found f upd arr) = update_found f upd arr
  /\ find f (update_found f upd arr) = upd <$> find f arr.
Proof.
  intros Hf Hupd. induction arr as [|x arr [IH1 IH2]]; simpl; [done|].
  destruct (f x) eqn:Hx; simpl.
  - by rewrite Hf, Hx, Hupd.
  - by rewrite Hx, IH1.
Qed.

(** X8. Saving the same edit twice is the same as saving it once, also when
    the edit is refused. *)
Theorem saveEditComment_twice (commentId : Z) (raw : jsstring) (w : World) :
  saveEditComment commentId raw (snd (saveEditComment commentId raw w))
  = saveEditComment commentId raw w.
Proof.
  unfold saveEditComment, getComments.
  destruct (truthy (trim raw)) eqn:Ht; simpl; rewrite ?Ht; simpl; [|done].
  destruct (comments w !! currentPostId w) as [arr|] eqn:Harr; simpl;
    rewrite ?Ht; simpl; [|by rewrite Harr].
  destruct (find _ arr) as [c|] eqn:Hfind; simpl; rewrite ?Ht; simpl;
    [|by rewrite Harr, Hfind].
  rewrite lookup_insert_eq.
  destruct (update_found_twice (fun c => bool_decide (Comment.id c = commentId))
              (Comment.set_text (trim raw)) arr) as [Htwice Hfound]; [done|done|].
  rewrite Hfound, Hfind. simpl. by rewrite Htwice, insert_insert_eq.
Qed.

(** ** Liking *)

Lemma toggled_others (u : Z) (arr : list Z) :
  List.filter (fun v => negb (bool_decide (v = u))) (toggled u arr)
  = List.filter (fun v => negb (bool_decide (v = u))) arr.
Proof.
  unfold toggled. case_bool_decide as Hi.
  - unfold push. rewrite List.filter_app. simpl.
    rewrite bool_decide_eq_true_2 by done. simpl. apply app_nil_r.
  - destruct (indexOf_present _ _ Hi) as (pre & post & Harr & _ & ->).
    rewrite Harr, !List.filter_app. simpl.
    by rewrite bool_decide_eq_true_2 by done.
Qed.

(** X9. [toggleLike] adds or removes the current user only: the other users
    who like the post are the same after the call, in the same order. *)
Theorem toggleLike_keeps_other_users (postId : Z) (w : World) :
  let others := fun w' =>
    List.filter (fun v => negb (bool_decide (v = currentUserId w)))
                (default [] (likes w' !! postId)) in
  others (snd (toggleLike postId w)) = others w.
Proof.
  intros others. subst others. cbv beta.
  rewrite toggleLike_likes, lookup_insert_eq. apply toggled_others.
Qed.

(** X10. One call of [toggleLike] on a post whose like list holds no user twice
    moves its like count by exactly one: down when the current user liked
    the post, in which case the count was not zero, up otherwise; on a post
    that has no like list yet it makes the list of the current user
    alone. *)
Theorem toggleLike_moves_count_by_one (P : Post.t) (w : World) :
  NoDup (default [] (likes w !! Post.id P)) ->
  let w' := snd (toggleLike (Post.id P) w) in
  (isLiked P w = true ->
   (0 < likeCount P w)%nat /\ likeCount P w = S (likeCount P w'))
  /\ (isLiked P w = false -> likeCount P w' = S (likeCount P w))
  /\ (likes w !! Post.id P = None -> likes w' !! Post.id P = Some [currentUserId w]).
Proof.
  intros Hnodup w'. subst w'.
  rewrite likeCount_after_toggle, likeCount_unfold, isLiked_unfold.
  rewrite toggled_length by done. split_and!.
  - intros Hin. rewrite Hin. apply bool_decide_eq_true in Hin.
    destruct (default [] (likes w !! Post.id P)); [by apply elem_of_nil in Hin|].
    simpl. split; [lia|done].
  - by intros ->.
  - intros Hnone. rewrite toggleLike_likes, lookup_insert_eq, Hnone. done.
Qed.

Lemma toggleLike_moves_count_by_one_witness :
  let P := Post.mk 1000 1 (str "hello") None 1000 false None None in
  let w := run [CreatePost 1000 1000 (str "hello"); SelectUser 2; ToggleLike 1000;
                SelectUser 3] initial in
  likeCount P w = 1%nat
  /\ likeCount P (snd (toggleLike 1000 w)) = 2%nat.
Proof.
  set (P := Post.mk 1000 1 (str "hello") None 1000 false None None).
  set (w := run [CreatePost 1000 1000 (str "hello"); SelectUser 2; ToggleLike 1000;
                 SelectUser 3] initial).
  assert (Hnodup : NoDup (default [] (likes w !! Post.id P))).
  { vm_compute. apply NoDup_singleton. }
  destruct (toggleLike_moves_count_by_one P w Hnodup) as (_ & Hup & _).
  change (Post.id P) with 1000 in *.
  cbv zeta. split; [reflexivity|]. rewrite Hup; reflexivity.
Defined.

(** ** What each handler writes *)

Lemma handle_frame (a : Action) (w : World) :
  let w' := snd (handle a w) in
  match a with
  | CreatePost _ _ _ | SharePost _ _ _ =>
      likes w' = likes w /\ comments w' = comments w
  | ToggleLike _ =>
      posts w' = posts w /\ comments w' = comments w
  | AddComment _ _ _ | SaveEditComment _ _ | DeleteComment _ _ =>
      posts w' = posts w /\ likes w' = likes w
  | HandleImageUpload _ | RemoveImage | OpenCommentModal _ | CloseCommentModal
  | SelectUser _ | ReaderOnload _ =>
      posts w' = posts w /\ likes w' = likes w /\ comments w' = comments w
  end.
Proof.
  destruct a; simpl; try done.
  - unfold createPost. by destruct (_ && _).
  - unfold handleImageUpload. destruct file; [|done]. by destruct (negb _).
  - unfold addComment. by destruct (negb _).
  - unfold saveEditComment. destruct (negb _); [done|].
    destruct (_ !! _); [|done]. by destruct (find _ _).
  - unfold deleteComment. destruct (negb _); [done|].
    destruct (_ !! _); [|done]. by destruct (negb _).
  - unfold sharePost. destruct (find _ _); [|done].
    case_bool_decide; [done|]. by destruct (some _ _).
Qed.

(** X11. The posts are written by [createPost] and [sharePost] only, the likes
    by [toggleLike] only, the comments by [addComment], [saveEditComment]
    and [deleteComment] only; choosing a user, opening or closing the
    dialog and staging or removing an image write none of the three. *)
Theorem handlers_write_their_own_item (a : Action) (w : World) :
  let w' := snd (handle a w) in
  match a with
  | CreatePost _ _ _ | SharePost _ _ _ =>
      likes w' = likes w /\ comments w' = comments w
  | ToggleLike _ =>
      posts w' = posts w /\ comments w' = comments w
  | AddComment _ _ _ | SaveEditComment _ _ | DeleteComment _ _ =>
      posts w' = posts w /\ likes w' = likes w
  | HandleImageUpload _ | RemoveImage | OpenCommentModal _ | CloseCommentModal
  | SelectUser _ | ReaderOnload _ =>
      posts w' = posts w /\ likes w' = likes w /\ comments w' = comments w
  end.
Proof. exact (handle_frame a w). Qed.

Lemma handle_posts_grow (a : Action) (w : World) :
  posts (snd (handle a w)) = posts w
  \/ exists newPost, posts (snd (handle a w)) = newPost :: posts w
                     /\ Post.userId newPost = currentUserId w.
Proof.
  pose proof (handle_frame a w) as Hframe.
  destruct a; simpl in *; try (left; tauto).
  - unfold createPost. destruct (_ && _); [by left|]. right. by eexists.
  - unfold sharePost. destruct (find _ _); [|by left].
    case_bool_decide; [by left|]. destruct (some _ _); [by left|].
    right. by eexists.
Qed.

(** X12. No handler removes or changes a stored post: whatever is run, the
    posts there were are still there, unchanged and in the same order,
    behind the posts made since. *)
Theorem posts_are_never_removed (actions : list Action) (w : World) :
  exists newer, posts (run actions w) = newer ++ posts w.
Proof.
  revert w. induction actions as [|a actions IH]; intros w; simpl.
  - by exists [].
  - destruct (IH (snd (handle a w))) as [newer Hnewer]. fold (run actions (snd (handle a w))).
    rewrite Hnewer. destruct (handle_posts_grow a w) as [->|(p & -> & _)].
    + by exists newer.
    + exists (newer ++ [p]). by rewrite <- app_assoc.
Qed.

(** ** What the storage always holds *)

Lemma splice1_elem {A} (i : Z) (arr : list A) (x : A) : x ∈ splice1 i arr -> x ∈ arr.
Proof.
  unfold splice1. intros [Hx|Hx]%elem_of_app.
  - by apply (subseteq_take (Z.to_nat i) arr).
  - by apply (subseteq_drop (S (Z.to_nat i)) arr).
Qed.

Lemma update_found_elem {A} (f : A -> bool) (upd : A -> A) (arr : list A) (x : A) :
  x ∈ update_found f upd arr -> x ∈ arr \/ exists y, y ∈ arr /\ x = upd y.
Proof.
  induction arr as [|y arr IH]; simpl; [by left|].
  destruct (f y).
  - intros [->|Hx]%elem_of_cons.
    + right. exists y. split; [left|done].
    + left. by right.
  - intros [->|Hx]%elem_of_cons; [left; left|].
    destruct (IH Hx) as [Hin|(z & Hz & ->)].
    + left. by right.
    + right. exists z. split; [by right|done].
Qed.

Lemma toggled_elem_of (u x : Z) (arr : list Z) : x ∈ toggled u arr -> x = u \/ x ∈ arr.
Proof.
  unfold toggled. case_bool_decide.
  - unfold push. intros [Hx|Hx%list_elem_of_singleton]%elem_of_app; auto.
  - intros Hx%splice1_elem. by right.
Qed.

(** What a handler does to the posts: nothing, or one post in front. *)
Lemma handle_new_post (a : Action) (w : World) :
  posts (snd (handle a w)) = posts w
  \/ (exists now stamp raw,
        (truthy (trim raw) = true \/ truthy_opt (uploadedImage w) = true)
        /\ posts (snd (handle a w))
           = Post.mk now (currentUserId w) (trim raw) (uploadedImage w) stamp false None None
             :: posts w)
  \/ (exists now stamp pid originalPost,
        originalPost ∈ posts w
        /\ Post.userId originalPost <> currentUserId w
        /\ shares_of (currentUserId w) pid w = []
        /\ posts (snd (handle a w)) = sharedPost now stamp pid w originalPost :: posts w).
Proof.
  pose proof (handle_frame a w) as Hframe.
  destruct a; simpl in *; try (left; tauto).
  - unfold createPost.
    destruct (truthy (trim raw)) eqn:Ht, (truthy_opt (uploadedImage w)) eqn:Hi; simpl;
      [right; left; exists now, stamp, raw; split; [by left|done]
      |right; left; exists now, stamp, raw; split; [by left|done]
      |right; left; exists now, stamp, raw; split; [by right|done]
      |by left].
  - unfold sharePost, getPosts.
    destruct (find _ _) as [originalPost|] eqn:Hfind; [|by left].
    case_bool_decide as Hown; [by left|].
    destruct (some _ _) eqn:Hsome; [by left|].
    right. right. exists now, stamp, originalPostId, originalPost.
    apply find_Some_holds in Hfind as [_ Hin]. split_and!; try done.
    unfold shares_of. by apply some_false_filter.
Qed.

Lemma post_ok_preserved (a : Action) (w : World) :
  (forall p, p ∈ posts w -> post_ok p) ->
  forall p, p ∈ posts (snd (handle a w)) -> post_ok p.
Proof.
  intros Hinv p.
  destruct (handle_new_post a w)
    as [->|[(now & stamp & raw & Hsome & ->)
           |(now & stamp & pid & orig & Hin & Hother & _ & ->)]]; [apply Hinv|..].
  - intros [->|Hp]%elem_of_cons; [|by apply Hinv].
    unfold post_ok. simpl. split_and!; try done.
  - intros [->|Hp]%elem_of_cons; [|by apply Hinv].
    destruct (Hinv orig Hin) as (Hcontent & _).
    unfold post_ok. simpl. split_and!; try done. intros _. split; eauto.
Qed.

(** X13. Every post the handlers store has a text or an image, also when it is
    a share; a post that is not a share names no original, and a share
    names an original post and an original author other than its own
    author. *)
Theorem stored_posts_are_well_formed (w : World) :
  reachable w -> forall p, p ∈ posts w -> post_ok p.
Proof.
  induction 1 as [|a w _ IH].
  - intros p Hp. by apply elem_of_nil in Hp.
  - by apply post_ok_preserved.
Qed.

Lemma stored_posts_are_well_formed_witness :
  let w := run [CreatePost 1000 1000 (str "hello"); SelectUser 2;
                SharePost 2000 2000 1000] initial in
  post_ok (Post.mk 2000 2 (str "hello") None 2000 true (Some 1000) (Some 1)).
Proof.
  cbv zeta.
  apply (stored_posts_are_well_formed
           (run [CreatePost 1000 1000 (str "hello"); SelectUser 2;
                 SharePost 2000 2000 1000] initial)).
  - apply reachable_run, reachable_initial.
  - vm_compute. left.
Defined.

Lemma shares_of_cons (u pid : Z) (p : Post.t) (ps : list Post.t) (w : World) :
  shares_of u pid (savePosts (p :: ps) w)
  = if bool_decide (Post.userId p = u) && Post.isShared p
       && bool_decide (Post.originalPostId p = Some pid)
    then p :: shares_of u pid (savePosts ps w) else shares_of u pid (savePosts ps w).
Proof. done. Qed.

Lemma shares_of_posts (u pid : Z) (w w' : World) :
  posts w' = posts w -> shares_of u pid w' = shares_of u pid w.
Proof. unfold shares_of. by intros ->. Qed.

Lemma shares_once_preserved (a : Action) (w : World) :
  (forall u pid, (length (shares_of u pid w) <= 1)%nat) ->
  forall u pid, (length (shares_of u pid (snd (handle a w))) <= 1)%nat.
Proof.
  intros Hinv u pid.
  destruct (handle_new_post a w)
    as [Hsame|[(now & stamp & raw & _ & Hnew)
              |(now & stamp & pid0 & orig & _ & _ & Hnone & Hnew)]].
  - by rewrite (shares_of_posts u pid w).
  - unfold shares_of. rewrite Hnew. simpl. rewrite andb_false_r. apply Hinv.
  - unfold shares_of in *. rewrite Hnew. simpl.
    destruct (bool_decide (currentUserId w = u)) eqn:Hu; simpl; [|apply Hinv].
    destruct (bool_decide (Some pid0 = Some pid)) eqn:Hpid; simpl; [|apply Hinv].
    apply bool_decide_eq_true in Hu, Hpid. injection Hpid as <-. subst u.
    rewrite Hnone. simpl. lia.
Qed.

(** X14. A user never holds two shares of the same post: in every world the
    handlers can produce, each user has at most one stored share of each
    post id. *)
Theorem one_share_per_user_and_post (w : World) :
  reachable w -> forall u pid, (length (shares_of u pid w) <= 1)%nat.
Proof.
  induction 1 as [|a w _ IH].
  - intros u pid. simpl. lia.
  - by apply shares_once_preserved.
Qed.

Lemma one_share_per_user_and_post_witness :
  let w := run [CreatePost 1000 1000 (str "hello"); SelectUser 2;
                SharePost 2000 2000 1000; SharePost 3000 3000 1000] initial in
  (length (shares_of 2 1000 w) <= 1)%nat /\ shares_of 2 1000 w <> [].
Proof.
  cbv zeta. split; [|vm_compute; discriminate].
  apply (one_share_per_user_and_post
           (run [CreatePost 1000 1000 (str "hello"); SelectUser 2;
                 SharePost 2000 2000 1000; SharePost 3000 3000 1000] initial)).
  apply reachable_run, reachable_initial.
Defined.

(** What a handler does to the comments: nothing, or it rewrites one list,
    whose comments are the old ones, the old ones with a new non-empty
    trimmed text, or a new comment of the current user with such a text. *)
Lemma handle_comments (a : Action) (w : World) :
  comments (snd (handle a w)) = comments w
  \/ exists key arr,
       comments (snd (handle a w)) = <[key := arr]> (comments w)
       /\ forall c, c ∈ arr ->
            c ∈ default [] (comments w !! key)
            \/ (exists c0 text, c0 ∈ default [] (comments w !! key)
                               /\ c = Comment.set_text text c0
                               /\ text <> [] /\ trim text = text)
            \/ (exists now stamp text, c = Comment.mk now (currentUserId w) text stamp
                                      /\ text <> [] /\ trim text = text).
Proof.
  pose proof (handle_frame a w) as Hframe.
  destruct a; simpl in *; try (left; tauto).
  - destruct (decide (trim raw = [])) as [Hblank|Htext].
    + left. unfold addComment. by rewrite Hblank.
    + right. rewrite addComment_comments by done. simpl.
      eexists _, _. split; [done|]. intros c [Hc|Hc%list_elem_of_singleton]%elem_of_app.
      * by left.
      * right. right. exists now, stamp, (trim raw). split_and!; try done.
        apply trim_idempotent.
  - unfold saveEditComment, getComments.
    destruct (truthy (trim raw)) eqn:Ht; simpl; [|by left].
    destruct (comments w !! currentPostId w) as [arr|] eqn:Harr; [|by left].
    destruct (find _ arr); [|by left]. right. simpl.
    eexists _, _. split; [done|]. rewrite Harr. simpl.
    intros c [Hc|(c0 & Hc0 & ->)]%update_found_elem; [by left|].
    right. left. exists c0, (trim raw). split_and!; try done.
    + intros Hnil. by rewrite Hnil in Ht.
    + apply trim_idempotent.
  - unfold deleteComment, getComments. destruct confirmed; simpl; [|by left].
    destruct (comments w !! currentPostId w) as [arr|] eqn:Harr; [|by left].
    destruct (negb _); [|by left]. right. simpl.
    eexists _, _. split; [done|]. rewrite Harr. simpl.
    intros c Hc%splice1_elem. by left.
Qed.

Lemma comments_ok_preserved (a : Action) (w : World) :
  comments_ok w -> comments_ok (snd (handle a w)).
Proof.
  intros Hinv. destruct (handle_comments a w) as [Hsame|(key & arr & Hnew & Harr)].
  - unfold comments_ok. by rewrite Hsame.
  - unfold comments_ok. rewrite Hnew. intros key' arr' c.
    destruct (decide (key = key')) as [<-|Hne].
    + rewrite lookup_insert_eq. intros [= <-] Hc.
      destruct (Harr c Hc) as [Hold|[(c0 & text & Hc0 & -> & Hne & Htrim)
                                    |(now & stamp & text & -> & Hne & Htrim)]].
      * destruct (comments w !! key) as [arr0|] eqn:Hkey; simpl in Hold;
          [by eapply Hinv|by apply elem_of_nil in Hold].
      * done.
      * done.
    + rewrite lookup_insert_ne by done. apply Hinv.
Qed.

Lemma reachable_comments_ok (w : World) : reachable w -> comments_ok w.
Proof.
  induction 1 as [|a w _ IH].
  - intros key arr c. unfold initial. simpl. by rewrite lookup_empty.
  - by apply comments_ok_preserved.
Qed.

(** X15. Every comment the handlers store has a text that is not empty and has
    no white space at its ends, after any additions, edits and deletions. *)
Theorem stored_comments_have_trimmed_text (w : World) :
  reachable w -> comments_ok w.
Proof. apply reachable_comments_ok. Qed.

Lemma stored_comments_have_trimmed_text_witness :
  comment_ok (Comment.mk 2000 1 (str "better") 2000).
Proof.
  apply (stored_comments_have_trimmed_text
           (run [CreatePost 1000 1000 (str "hello"); OpenCommentModal 1000;
                 AddComment 2000 2000 (str " nice "); SaveEditComment 2000 (str " better ")]
                initial)
           (reachable_run _ _ reachable_initial)
           (Some 1000) [Comment.mk 2000 1 (str "better") 2000]).
  - reflexivity.
  - left.
Defined.

(** ** Sessions never meet an unknown user *)

Lemma handle_currentUserId (a : Action) (w : World) :
  currentUserId (snd (handle a w))
  = match a with SelectUser u => u | _ => currentUserId w end.
Proof.
  destruct a; simpl; try done.
  - unfold createPost. by destruct (_ && _).
  - unfold handleImageUpload. destruct file; [|done]. by destruct (negb _).
  - unfold addComment. by destruct (negb _).
  - unfold saveEditComment. destruct (negb _); [done|].
    destruct (_ !! _); [|done]. by destruct (find _ _).
  - unfold deleteComment. destruct (negb _); [done|].
    destruct (_ !! _); [|done]. by destruct (negb _).
  - unfold sharePost. destruct (find _ _); [|done].
    case_bool_decide; [done|]. by destruct (some _ _).
Qed.

Lemma handle_known_writer (a : Action) (w : World) :
  known (currentUserId w) -> permitted a -> known (currentUserId (snd (handle a w))).
Proof. rewrite handle_currentUserId. by destruct a. Qed.

Lemma authors_known_preserved (a : Action) (w : World) :
  authors_known w -> permitted a -> authors_known (snd (handle a w)).
Proof.
  intros (Hcur & Hposts & Hcomments & Hlikes) Hperm. split_and!.
  - by apply handle_known_writer.
  - intros p.
    destruct (handle_new_post a w)
      as [->|[(now & stamp & raw & _ & ->)|(now & stamp & pid & orig & _ & _ & _ & ->)]];
      [apply Hposts|..]; (intros [->|Hp]%elem_of_cons; [done|by apply Hposts]).
  - destruct (handle_comments a w) as [->|(key & arr & -> & Harr)]; [done|].
    intros key' arr' c. destruct (decide (key = key')) as [<-|Hne].
    + rewrite lookup_insert_eq. intros [= <-] Hc.
      destruct (Harr c Hc) as [Hold|[(c0 & text & Hc0 & -> & _)
                                    |(now & stamp & text & -> & _)]]; [| |done].
      * destruct (comments w !! key) as [arr0|] eqn:Hkey; simpl in Hold;
          [by eapply Hcomments|by apply elem_of_nil in Hold].
      * change (known (Comment.userId c0)).
        destruct (comments w !! key) as [arr0|] eqn:Hkey; simpl in Hc0;
          [by eapply Hcomments|by apply elem_of_nil in Hc0].
    + rewrite lookup_insert_ne by done. apply Hcomments.
  - destruct a as [| | |postId| | | | | | | |];
      try (rewrite handle_likes by done; exact Hlikes).
    unfold handle. rewrite toggleLike_likes. intros p arr u.
    destruct (decide (postId = p)) as [<-|Hne].
    + rewrite lookup_insert_eq. intros [= <-] [->|Hu]%toggled_elem_of; [done|].
      destruct (likes w !! postId) as [arr0|] eqn:Hkey; simpl in Hu;
        [by eapply Hlikes|by apply elem_of_nil in Hu].
    + rewrite lookup_insert_ne by done. apply Hlikes.
Qed.

Lemma in_session_authors_known (w : World) : in_session w -> authors_known w.
Proof.
  induction 1 as [|a w _ IH Hperm].
  - unfold authors_known, initial. simpl. split_and!.
    + by eexists.
    + intros p Hp. by apply elem_of_nil in Hp.
    + intros key arr c. by rewrite lookup_empty.
    + intros postId arr u. by rewrite lookup_empty.
  - by apply authors_known_preserved.
Qed.

Lemma in_session_run (actions : list Action) (w : World) :
  in_session w -> Forall permitted actions -> in_session (run actions w).
Proof.
  revert w. induction actions as [|a actions IH]; intros w Hw Hall; simpl; [done|].
  apply Forall_cons in Hall as [Ha Hall]. apply IH; [|done]. by constructor.
Qed.

Lemma in_session_reachable (w : World) : in_session w -> reachable w.
Proof. induction 1 as [|a w _ IH _]; by constructor. Qed.

Ltac solve_session :=
  apply in_session_run; [apply session_start|];
  repeat (apply Forall_cons; split; [simpl; try done; by eexists|]);
  apply Forall_nil_2.

Lemma authors_known_renders (t : Z) (w : World) :
  authors_known w ->
  is_Some (renderFeed t w)
  /\ is_Some (renderComments t w)
  /\ is_Some (updateCurrentUserProfile w).
Proof.
  intros (Hcur & Hposts & Hcomments & _). split_and!.
  - unfold renderFeed, getPosts. case_bool_decide; [done|].
    apply fmap_is_Some, mapM_is_Some, Forall_forall. intros p Hp. simpl.
    unfold createPostCard. by destruct (Hposts p Hp) as [user ->].
  - unfold renderComments, getComments. case_bool_decide; [done|].
    apply fmap_is_Some, mapM_is_Some, Forall_forall. intros c Hc. simpl.
    unfold createCommentElement.
    destruct (comments w !! currentPostId w) as [arr|] eqn:Harr; simpl in Hc;
      [|by apply elem_of_nil in Hc].
    by destruct (Hcomments _ _ c Harr Hc) as [user ->].
  - unfold updateCurrentUserProfile. by destruct Hcur as [user ->].
Qed.

Lemma authors_known_render_completes (t : Z) (r : Render) (w : World) :
  authors_known w -> render_completes t r w = true.
Proof.
  intros Hw. destruct (authors_known_renders t w Hw) as (Hfeed & Hcomments & Hprofile).
  destruct r; simpl; by apply bool_decide_eq_true_2.
Qed.

(** In a session the closing calls of a handler return: the handler ends
    as its body does. *)
Lemma session_handle_and_render (t : Z) (a : Action) (w : World) :
  in_session w -> permitted a -> handle_and_render t a w = handle a w.
Proof.
  intros Hw Ha. unfold handle_and_render.
  destruct (fst (handle a w)) eqn:Hend; try done.
  assert (Hall : forallb (fun render => render_completes t render (snd (handle a w)))
                         (closing_renders a w) = true).
  { apply forallb_forall. intros r _.
    apply authors_known_render_completes, in_session_authors_known. by constructor. }
  by rewrite Hall.
Qed.

(** X16. In a session, where the user selector offers the users of the
    directory only, every author met in the storage is in the directory:
    drawing the feed, the comments of the open dialog and the profile panel
    never ends in a [TypeError], so every handler ends as its body does,
    its closing render calls returning; and opening the edit form of a
    comment stored under the post of the dialog, when the page has the
    element of that comment, does not end in a [TypeError] either. *)
Theorem session_rendering_never_throws (t : Z) (w : World) :
  in_session w ->
  is_Some (renderFeed t w)
  /\ is_Some (renderComments t w)
  /\ is_Some (updateCurrentUserProfile w)
  /\ (forall a, permitted a -> handle_and_render t a w = handle a w)
  /\ (forall c, c ∈ current_comments w ->
                is_Some (startEditComment true (Comment.id c) w)).
Proof.
  intros Hw. pose proof (in_session_authors_known w Hw) as Hknown.
  destruct (authors_known_renders t w Hknown) as (Hfeed & Hcomments & Hprofile).
  split_and!; try done.
  - intros a Ha. by apply session_handle_and_render.
  - destruct Hknown as (_ & _ & Hauthors & _).
    intros c Hc. unfold startEditComment, current_comments, getComments in *.
    destruct (comments w !! currentPostId w) as [arr|] eqn:Harr; simpl in Hc;
      [|by apply elem_of_nil in Hc].
    destruct (find (fun c0 => bool_decide (Comment.id c0 = Comment.id c)) arr)
      as [c'|] eqn:Hfind.
    + apply find_Some_holds in Hfind as [_ Hin]. simpl.
      by destruct (Hauthors _ _ c' Harr Hin) as [user ->].
    + exfalso. rewrite find_None_forall in Hfind. specialize (Hfind c Hc).
      by rewrite bool_decide_eq_true_2 in Hfind.
Qed.

Lemma session_rendering_never_throws_witness :
  let w := run [CreatePost 1000 1000 (str "hello"); SelectUser 2; SharePost 2000 2000 1000;
                OpenCommentModal 1000; AddComment 3000 3000 (str "nice")] initial in
  is_Some (renderFeed 5000 w) /\ is_Some (renderComments 5000 w)
  /\ handle_and_render 5000 (ToggleLike 1000) w = toggleLike 1000 w.
Proof.
  cbv zeta.
  destruct (session_rendering_never_throws 5000
              (run [CreatePost 1000 1000 (str "hello"); SelectUser 2;
                    SharePost 2000 2000 1000; OpenCommentModal 1000;
                    AddComment 3000 3000 (str "nice")] initial))
    as (Hfeed & Hcomments & _ & Hhandlers & _).
  - solve_session.
  - split_and!; [exact Hfeed|exact Hcomments|]. by apply (Hhandlers (ToggleLike 1000)).
Defined.

(** X7. In a session, saving a comment with the text that
    [startEditComment] put in its edit form changes nothing: the handler,
    with its closing call, runs to its end and leaves the world exactly as
    it was. *)
Theorem saveEditComment_unchanged_text (t : Z) (drawn : bool) (commentId : Z)
  (name : string) (text : jsstring) (w : World) :
  in_session w ->
  startEditComment drawn commentId w = Some (name, text) ->
  handle_and_render t (SaveEditComment commentId text) w = (Done, w).
Proof.
  intros Hw Hform. rewrite session_handle_and_render by done. simpl.
  unfold startEditComment, getComments in Hform.
  destruct (comments w !! currentPostId w) as [arr|] eqn:Harr; [|done].
  destruct (find _ arr) as [c|] eqn:Hfind; [|done].
  destruct (negb drawn); [done|].
  destruct (getUserById _); [|done]. injection Hform as _ <-.
  pose proof (find_Some_holds _ _ _ Hfind) as [_ Hin].
  destruct (reachable_comments_ok w (in_session_reachable w Hw) _ _ c Harr Hin)
    as [Hne Htrim].
  by apply (saveEditComment_same_text commentId arr).
Qed.

Lemma saveEditComment_unchanged_text_witness :
  let w := run [CreatePost 1000 1000 (str "hello"); OpenCommentModal 1000;
                AddComment 2000 2000 (str " nice ")] initial in
  startEditComment true 2000 w = Some ("Nitesh Sawardekar", str "nice")
  /\ handle_and_render 5000 (SaveEditComment 2000 (str "nice")) w = (Done, w).
Proof.
  cbv zeta. split; [reflexivity|].
  apply (saveEditComment_unchanged_text 5000 true 2000 "Nitesh Sawardekar");
    [solve_session | reflexivity].
Defined.

(** X1. In a session [createPost], with the render calls that close it,
    runs to its end exactly when the trimmed text is not empty or an image
    is staged; otherwise it shows the alert and leaves the world as it
    was. *)
Theorem createPost_needs_text_or_image (t now stamp : Z) (raw : jsstring) (w : World) :
  in_session w ->
  let r := handle_and_render t (CreatePost now stamp raw) w in
  (fst r = Done <-> trim raw <> [] \/ truthy_opt (uploadedImage w) = true)
  /\ (fst r <> Done -> r = (Alerted AlertEmptyPost, w)).
Proof.
  intros Hw r. subst r. rewrite session_handle_and_render by done. simpl.
  split.
  - rewrite createPost_Done_iff, <- truthy_false.
    destruct (truthy (trim raw)); intuition congruence.
  - unfold createPost. by destruct (_ && _).
Qed.

Lemma createPost_needs_text_or_image_witness :
  let w := run [CreatePost 1000 1000 (str "hello"); SelectUser 2] initial in
  fst (handle_and_render 5000 (CreatePost 2000 2000 (str " again ")) w) = Done
  /\ handle_and_render 5000 (CreatePost 2000 2000 (str "  ")) w = (Alerted AlertEmptyPost, w).
Proof.
  cbv zeta.
  destruct (createPost_needs_text_or_image 5000 2000 2000 (str " again ")
              (run [CreatePost 1000 1000 (str "hello"); SelectUser 2] initial))
    as [Hiff _]; [solve_session|].
  destruct (createPost_needs_text_or_image 5000 2000 2000 (str "  ")
              (run [CreatePost 1000 1000 (str "hello"); SelectUser 2] initial))
    as [_ Hrefused]; [solve_session|].
  split.
  - apply Hiff. left. vm_compute. discriminate.
  - apply Hrefused. vm_compute. discriminate.
Defined.

(** ** The feed *)

(** X17. [renderFeed] ends in a [TypeError] exactly when the author of some
    stored post is not in the directory. Otherwise it shows the placeholder
    exactly when no post is stored, and else one card per post, in the
    order of the storage, each with the like and comment counts stored
    under the id of its post and with the Share button exactly when its
    post is not a share. *)
Theorem renderFeed_cards (now : Z) (w : World) :
  (renderFeed now w = None
   <-> exists p, p ∈ posts w /\ getUserById (Post.userId p) = None)
  /\ (renderFeed now w = Some EmptyFeed <-> posts w = [])
  /\ (forall cards, renderFeed now w = Some (FeedCards cards) ->
      length cards = length (posts w)
      /\ forall (i : nat) post, posts w !! i = Some post ->
           exists card,
             cards !! i = Some card
             /\ card_content card = Post.content post
             /\ card_likeCount card = Reference.countFor (Post.id post) w
             /\ card_commentCount card = length (Reference.listFor (Post.id post) w)
             /\ card_shareButton card = negb (Post.isShared post)).
Proof.
  unfold renderFeed, getPosts. split_and!.
  - case_bool_decide as Hlen.
    + split; [done|]. intros (p & Hp & _). destruct (posts w); [|done].
      by apply elem_of_nil in Hp.
    + rewrite fmap_None, mapM_None, Exists_exists. unfold createPostCard.
      split; intros (p & Hp & Hnone); exists p; (split; [done|]);
        by destruct (getUserById (Post.userId p)).
  - case_bool_decide as Hlen.
    + split; [|done]. intros _. by destruct (posts w).
    + split; [|by intros Hnil; rewrite Hnil in Hlen].
      by destruct (mapM _ _).
  - intros cards. case_bool_decide as Hlen; [done|].
    destruct (mapM _ _) as [cards'|] eqn:Hcards; [|done]. intros [= <-].
    apply mapM_Some in Hcards. split; [symmetry; by eapply Forall2_length|].
    intros i post Hi.
    destruct (Forall2_lookup_l _ _ _ _ _ Hcards Hi) as (card & Hcard & Hmade).
    exists card. split; [done|]. unfold createPostCard in Hmade.
    destruct (getUserById (Post.userId post)); [|done]. injection Hmade as <-. simpl.
    split_and!; try done.
    + apply likeCount_unfold.
    + unfold commentCount, Reference.listFor, getComments, len.
      by destruct (comments w !! Some (Post.id post)).
Qed.

(** ** Sharing *)

(** X18. A successful [sharePost] puts in front a post of the current user that
    carries the text and the image of the post found for the id; the posts
    listed for every other user, the author of that post among them, are
    the same as before, and likes and comments are not touched. *)
Theorem sharePost_copies_the_post (now stamp pid : Z) (w : World) :
  fst (sharePost now stamp pid w) = Done ->
  let w' := snd (sharePost now stamp pid w) in
  exists original newPost,
    find (fun p => bool_decide (Post.id p = pid)) (posts w) = Some original
    /\ posts w' = newPost :: posts w
    /\ Post.userId newPost = currentUserId w
    /\ Post.content newPost = Post.content original
    /\ Post.image newPost = Post.image original
    /\ Post.userId original <> currentUserId w
    /\ Reference.listByUser (currentUserId w) w'
       = newPost :: Reference.listByUser (currentUserId w) w
    /\ (forall v, v <> currentUserId w ->
                  Reference.listByUser v w' = Reference.listByUser v w)
    /\ likes w' = likes w /\ comments w' = comments w.
Proof.
  unfold sharePost, getPosts.
  destruct (find _ _) as [original|] eqn:Hfind; [|done].
  case_bool_decide as Hown; [done|]. destruct (some _ _); [done|].
  intros _. simpl. eexists original, _. split_and!; try done.
  - unfold Reference.listByUser. simpl. by rewrite bool_decide_eq_true_2.
  - intros v Hv. unfold Reference.listByUser. simpl.
    by rewrite bool_decide_eq_false_2.
Qed.

Lemma sharePost_copies_the_post_witness :
  let w := run [CreatePost 1000 1000 (str "hello"); SelectUser 2] initial in
  let w' := snd (sharePost 2000 2000 1000 w) in
  Reference.listByUser 1 w' = Reference.listByUser 1 w
  /\ length (Reference.listByUser 2 w') = 1%nat.
Proof.
  set (w := run [CreatePost 1000 1000 (str "hello"); SelectUser 2] initial).
  destruct (sharePost_copies_the_post 2000 2000 1000 w)
    as (original & newPost & _ & _ & _ & _ & _ & _ & Hmine & Hothers & _);
    [reflexivity|].
  cbv zeta. fold w. split.
  - apply Hothers. vm_compute; discriminate.
  - change (currentUserId w) with 2 in Hmine. rewrite Hmine. reflexivity.
Defined.

(** ** Statistics after a handler *)

(** X19. After a successful [createPost] the profile panel counts one more post
    for the current user, and shows every other user the statistics it
    showed before. *)
Theorem createPost_counts_one_more_post (now stamp : Z) (raw : jsstring) (w : World) :
  fst (createPost now stamp raw w) = Done ->
  let w' := snd (createPost now stamp raw w) in
  userPosts (currentUserStats w') = S (userPosts (currentUserStats w))
  /\ userPosts (userStats (currentUserId w) w') = S (userPosts (userStats (currentUserId w) w))
  /\ (forall v, v <> currentUserId w -> userStats v w' = userStats v w).
Proof.
  unfold createPost.
  destruct (negb (truthy (trim raw)) && negb (truthy_opt (uploadedImage w))); [done|].
  intros _. simpl. split_and!.
  - unfold currentUserStats, getPosts. simpl. by rewrite bool_decide_eq_true_2.
  - unfold userStats, getPosts. simpl. by rewrite bool_decide_eq_true_2.
  - intros v Hv. unfold userStats, getPosts, getLikes, getComments. simpl.
    by rewrite bool_decide_eq_false_2.
Qed.

Lemma createPost_counts_one_more_post_witness :
  let w := run [CreatePost 1000 1000 (str "hello"); SelectUser 2] initial in
  userPosts (currentUserStats (snd (createPost 2000 2000 (str "again") w))) = 1%nat.
Proof.
  cbv zeta.
  destruct (createPost_counts_one_more_post 2000 2000 (str "again")
              (run [CreatePost 1000 1000 (str "hello"); SelectUser 2] initial))
    as (Hcount & _); [reflexivity|].
  rewrite Hcount. reflexivity.
Defined.

(** X20. With no dialog open, [currentPostId] being [null], [addComment] files
    the comment under the property named null: the comment count on the
    card of every post and the statistics of every user stay as they
    were. *)
Theorem addComment_without_dialog (now stamp : Z) (raw : jsstring) (w : World) :
  currentPostId w = None ->
  let w' := snd (addComment now stamp raw w) in
  (trim raw <> [] ->
   comments w' !! None
   = Some (default [] (comments w !! None)
           ++ [Comment.mk now (currentUserId w) (trim raw) stamp]))
  /\ (forall post, commentCount post w' = commentCount post w)
  /\ (forall u, userStats u w' = userStats u w).
Proof.
  intros Hnull w'.
  assert (Hlookup : forall postId, comments w' !! Some postId = comments w !! Some postId).
  { intros postId. subst w'. destruct (decide (trim raw = [])) as [Hblank|Htext].
    - unfold addComment. by rewrite Hblank.
    - rewrite addComment_comments by done. simpl. rewrite Hnull.
      by rewrite lookup_insert_ne. }
  assert (Hposts : posts w' = posts w /\ likes w' = likes w).
  { subst w'. unfold addComment. by destruct (negb _). }
  destruct Hposts as [Hposts Hlikes]. split_and!.
  - intros Htext. subst w'. rewrite addComment_comments by done. simpl.
    unfold current_comments. rewrite Hnull. by rewrite lookup_insert_eq.
  - intros post. unfold commentCount, getComments. by rewrite Hlookup.
  - intros u. rewrite !userStats_reference.
    unfold Reference.stats, Reference.postCount, Reference.likeCount,
      Reference.commentCount, Reference.listByUser, Reference.countFor, Reference.listFor.
    rewrite Hposts, Hlikes. f_equal. f_equal. apply map_ext. intros post.
    by rewrite Hlookup.
Qed.

Lemma addComment_without_dialog_witness :
  let w := run [CreatePost 1000 1000 (str "hello")] initial in
  let w' := snd (addComment 2000 2000 (str "lost") w) in
  comments w' !! None = Some [Comment.mk 2000 1 (str "lost") 2000]
  /\ showUserProfile 1 w' = Some (mkStats 1 0 0).
Proof.
  set (w := run [CreatePost 1000 1000 (str "hello")] initial).
  destruct (addComment_without_dialog 2000 2000 (str "lost") w) as (Hnull & _ & Hstats);
    [reflexivity|].
  cbv zeta. fold w. split.
  - rewrite Hnull; [reflexivity|vm_compute; discriminate].
  - unfold showUserProfile. simpl. rewrite Hstats. reflexivity.
Defined.

(** ** Time texts *)

(** X21. [formatTimestamp] reads the age in whole seconds, rounding down: an
    instant less than a minute old, or in the future, gives 'Just now';
    then minutes from 1 to 59, hours from 1 to 23 and days from 1 to 6,
    each rounded down and with its plural mark exactly when the number is
    not 1; from seven days on, the date. *)
Theorem formatTimestamp_ranges (now timestamp : Z) :
  let age := (now - timestamp) / 1000 in
  match formatTimestamp now timestamp with
  | JustNow => now - timestamp < 60000
  | Ago n unit plural =>
      plural = negb (bool_decide (n = 1))
      /\ ((unit = "minute" /\ n = age / 60 /\ 1 <= n <= 59 /\ 60 <= age < 3600)
          \/ (unit = "hour" /\ n = age / 3600 /\ 1 <= n <= 23 /\ 3600 <= age < 86400)
          \/ (unit = "day" /\ n = age / 86400 /\ 1 <= n <= 6 /\ 86400 <= age < 604800))
  | OnDate postDate => postDate = timestamp /\ 604800000 <= now - timestamp
  end.
Proof.
  intros age. unfold formatTimestamp. fold age.
  assert (Hage : 1000 * age <= now - timestamp < 1000 * age + 1000).
  { subst age. pose proof (Z.div_mod (now - timestamp) 1000).
    pose proof (Z.mod_pos_bound (now - timestamp) 1000). lia. }
  assert (Hmin : 60 <= age < 3600 -> 1 <= age / 60 <= 59).
  { intros ?. split; [apply Z.div_le_lower_bound; lia|].
    assert (age / 60 < 60) by (apply Z.div_lt_upper_bound; lia). lia. }
  assert (Hhour : 3600 <= age < 86400 -> 1 <= age / 3600 <= 23).
  { intros ?. split; [apply Z.div_le_lower_bound; lia|].
    assert (age / 3600 < 24) by (apply Z.div_lt_upper_bound; lia). lia. }
  assert (Hday : 86400 <= age < 604800 -> 1 <= age / 86400 <= 6).
  { intros ?. split; [apply Z.div_le_lower_bound; lia|].
    assert (age / 86400 < 7) by (apply Z.div_lt_upper_bound; lia). lia. }
  destruct (decide (age < 60)); [rewrite bool_decide_eq_true_2 by done; lia|].
  rewrite bool_decide_eq_false_2 by done.
  destruct (decide (age < 3600)).
  { rewrite bool_decide_eq_true_2 by done. split; [done|]. left.
    split_and!; try done; try lia; apply Hmin; lia. }
  rewrite bool_decide_eq_false_2 by done.
  destruct (decide (age < 86400)).
  { rewrite bool_decide_eq_true_2 by done. split; [done|]. right. left.
    split_and!; try done; try lia; apply Hhour; lia. }
  rewrite bool_decide_eq_false_2 by done.
  destruct (decide (age < 604800)).
  { rewrite bool_decide_eq_true_2 by done. split; [done|]. right. right.
    split_and!; try done; try lia; apply Hday; lia. }
  rewrite bool_decide_eq_false_2 by done. split; [done|]. lia.
Qed.

Example formatTimestamp_samples :
  formatTimestamp 100000 100500 = JustNow
  /\ formatTimestamp 100000 (100000 - 119999) = Ago 1 "minute" false
  /\ formatTimestamp 100000 (100000 - 120000) = Ago 2 "minute" true
  /\ formatTimestamp 100000 (100000 - 3600000) = Ago 1 "hour" false
  /\ formatTimestamp 100000 (100000 - 604799999) = Ago 6 "day" true
  /\ formatTimestamp 100000 (100000 - 604800000) = OnDate (100000 - 604800000).
Proof. repeat split. Qed.

(** ** The character counter *)

(** X22. [updateCharCount] shows the length and leaves the counter with the
    class [danger] exactly above 250 and the class [warning] exactly from
    201 to 250, whatever classes it had before: never both, and no class
    is left over from an earlier, longer text. *)
Theorem updateCharCount_classes (currentLength : nat) (classes : CounterClasses) :
  let r := updateCharCount currentLength classes in
  fst r = currentLength
  /\ danger (snd r) = bool_decide (250 < currentLength)%nat
  /\ warning (snd r) = bool_decide (200 < currentLength <= 250)%nat
  /\ warning (snd r) && danger (snd r) = false.
Proof.
  unfold updateCharCount. simpl.
  repeat case_bool_decide; simpl; split_and!; try done; lia.
Qed.

(** ** The sidebar *)

(** X23. For a current user of the directory, [renderAllUsers] lists the two
    other users, each once, and never the current user. *)
Theorem renderAllUsers_lists_the_others (w : World) :
  known (currentUserId w) ->
  length (renderAllUsers w) = 2%nat
  /\ NoDup (renderAllUsers w)
  /\ forall user, user ∈ renderAllUsers w
                  <-> user ∈ users /\ User.id user <> currentUserId w.
Proof.
  intros [user Huser].
  assert (Hcur : currentUserId w = 1 \/ currentUserId w = 2 \/ currentUserId w = 3).
  { unfold getUserById, users in Huser. simpl in Huser.
    repeat case_bool_decide; auto. done. }
  split_and!.
  - unfold renderAllUsers. destruct Hcur as [Hc|[Hc|Hc]]; by rewrite Hc.
  - unfold renderAllUsers.
    destruct Hcur as [Hc|[Hc|Hc]]; rewrite Hc; simpl;
      (apply NoDup_cons; split; [|apply NoDup_singleton]);
      rewrite list_elem_of_singleton; discriminate.
  - intros user0. unfold renderAllUsers.
    rewrite !list_elem_of_In, filter_In, negb_true_iff, bool_decide_eq_false. done.
Qed.

Lemma renderAllUsers_lists_the_others_witness :
  let w := snd (selectUser 2 initial) in
  List.map User.id (renderAllUsers w) = [1; 3].
Proof.
  cbv zeta.
  destruct (renderAllUsers_lists_the_others (snd (selectUser 2 initial))) as (Hlen & _).
  - by eexists.
  - reflexivity.
Defined.
